(** * DataJoint: headings, transactions and populate

    A shallow embedding of [datajoint/heading.py], [datajoint/connection.py]
    and [datajoint/autopopulate.py].

    - Python [str] values are modelled as [string] (sequences of bytes); every
      character the code inspects is ASCII.
    - A Python exception is a value of [Exn]: its class and its [str()].
      Only subclasses of [Exception] are modelled, which is what
      [except Exception] catches.
    - A function that may raise returns [Res]. *)

From Stdlib Require Import String Ascii List Bool Arith.
Import ListNotations.
Open Scope list_scope.
Open Scope string_scope.

(** ** Exceptions and results *)

Inductive ExnClass :=
| DataJointError
| OperationalError   (* pymysql.err.OperationalError *)
| AssertionError
| KeyError
| AttributeError
| OtherException.

Record Exn := mkExn { exn_class : ExnClass; exn_str : string }.

Inductive Res (A : Type) :=
| Ret (a : A)
| Raise (e : Exn).
Arguments Ret {A} a.
Arguments Raise {A} e.

Definition ExnClass_eqb (a b : ExnClass) : bool :=
  match a, b with
  | DataJointError, DataJointError
  | OperationalError, OperationalError
  | AssertionError, AssertionError
  | KeyError, KeyError
  | AttributeError, AttributeError
  | OtherException, OtherException => true
  | _, _ => false
  end.

(** [for x in l: ...] where the body may raise: stops at the first failure. *)
Fixpoint mapM {A B : Type} (f : A -> Res B) (l : list A) : Res (list B) :=
  match l with
  | [] => Ret []
  | x :: r =>
      match f x with
      | Raise e => Raise e
      | Ret y =>
          match mapM f r with
          | Raise e => Raise e
          | Ret ys => Ret (y :: ys)
          end
      end
  end.

(** ** Strings *)

Definition dquote : ascii := "034"%char.
Definition squote : ascii := "039"%char.
Definition backslash : ascii := "092"%char.
Definition backtick : ascii := "096"%char.
Definition newline : ascii := "010"%char.

Definition str1 (c : ascii) : string := String c EmptyString.
Definition DQ : string := str1 dquote.
Definition BT : string := str1 backtick.

(** [x in l] for a list of strings. *)
Definition mem (x : string) (l : list string) : bool :=
  existsb (String.eqb x) l.

(** [c in s] for a single character [c]. *)
Fixpoint char_in (c : ascii) (s : string) : bool :=
  match s with
  | EmptyString => false
  | String d r => Ascii.eqb c d || char_in c r
  end.

(** [p in s] for strings: [p] occurs in [s]. *)
Fixpoint contains (p s : string) : bool :=
  prefix p s ||
  match s with
  | EmptyString => false
  | String _ r => contains p r
  end.

Definition upper_char (c : ascii) : ascii :=
  let n := nat_of_ascii c in
  if ((97 <=? n) && (n <=? 122))%nat then ascii_of_nat (n - 32) else c.

Definition lower_char (c : ascii) : ascii :=
  let n := nat_of_ascii c in
  if ((65 <=? n) && (n <=? 90))%nat then ascii_of_nat (n + 32) else c.

Fixpoint smap (f : ascii -> ascii) (s : string) : string :=
  match s with
  | EmptyString => EmptyString
  | String c r => String (f c) (smap f r)
  end.

(** [s.upper()] and [s.lower()] *)
Definition upper : string -> string := smap upper_char.
Definition lower : string -> string := smap lower_char.

(** ** Regular expressions used by the introspection code

    Each pattern of the source is a small alternation of literals, so it is
    written out as the function it denotes. *)

(** [re.match(p1|p2|..., s)]: some alternative is a prefix of [s]. *)
Definition re_match_alt (alts : list string) (s : string) : bool :=
  existsb (fun p => prefix p s) alts.

(** [re.search(p, s, flags=re.IGNORECASE)] for a literal lower-case [p]. *)
Definition re_search_ci (p s : string) : bool := contains p (lower s).

(** The class [\s] on ASCII. *)
Definition is_space (c : ascii) : bool :=
  let n := nat_of_ascii c in
  (((9 <=? n) && (n <=? 13)) || ((28 <=? n) && (n <=? 32)))%nat.

(** [re.match('\sunsigned', s, flags=re.IGNORECASE)]: [re.match] anchors the
    pattern at the first character of [s]. *)
Definition re_match_space_unsigned (s : string) : bool :=
  match s with
  | EmptyString => false
  | String c r => is_space c && prefix "unsigned" (lower r)
  end.

(** Length of the shortest prefix of [s] that ends with the last [)] of the
    first line of [s]: where the greedy [.*\)] stops ([.] matches anything
    but a newline). *)
Fixpoint last_rparen (s : string) : option nat :=
  match s with
  | EmptyString => None
  | String c r =>
      if Ascii.eqb c newline then None
      else match last_rparen r with
           | Some n => Some (S n)
           | None => if Ascii.eqb c ")" then Some 1 else None
           end
  end.

(** [re.sub(r'\(.*\)', '', s)]; [skip] counts the characters of the current
    match that are still to be dropped. *)
Fixpoint sub_parens (skip : nat) (s : string) : string :=
  match s with
  | EmptyString => EmptyString
  | String c r =>
      match skip with
      | S k => sub_parens k r
      | O =>
          if Ascii.eqb c "(" then
            match last_rparen r with
            | Some n => sub_parens n r
            | None => String c (sub_parens 0 r)
            end
          else String c (sub_parens 0 r)
      end
  end.

(** [re.sub(r' unsigned$', '', s)]: [$] matches at the end of the string and
    before a newline that ends the string. *)
Fixpoint sub_unsigned (s : string) : string :=
  match s with
  | EmptyString => EmptyString
  | String c r =>
      if String.eqb s " unsigned" then EmptyString
      else if String.eqb s (" unsigned" ++ str1 newline) then str1 newline
      else String c (sub_unsigned r)
  end.

(** ** Attributes *)

(** The numpy types of the [numeric_types] table, and [object]. *)
Inductive Dtype :=
| object
| float32 | float64
| int8 | uint8
| int16 | uint16
| int32 | uint32
| int64 | uint64.

(** [namedtuple('_Attribute', default_attribute_properties.keys())]; the field
    [string] of the source is [string_] here. *)
Record Attribute := mkAttribute {
  name : string;
  type : string;
  in_key : bool;
  nullable : bool;
  default : option string;
  comment : string;
  autoincrement : bool;
  numeric : option bool;
  string_ : option bool;
  is_blob : bool;
  sql_expression : option string;
  dtype : Dtype
}.

(** The values set in computed attributes; [name=None] is always overwritten
    by the caller, so the record is taken at its name. *)
Definition default_attribute_properties (new_name : string) : Attribute :=
  {| name := new_name; type := "expression"; in_key := false; nullable := false;
     default := None; comment := "calculated attribute"; autoincrement := false;
     numeric := None; string_ := None; is_blob := false;
     sql_expression := None; dtype := object |}.

Definition set_in_key (b : bool) (a : Attribute) : Attribute :=
  {| name := name a; type := type a; in_key := b; nullable := nullable a;
     default := default a; comment := comment a; autoincrement := autoincrement a;
     numeric := numeric a; string_ := string_ a; is_blob := is_blob a;
     sql_expression := sql_expression a; dtype := dtype a |}.

Definition set_name_expression (n : string) (e : option string) (a : Attribute)
  : Attribute :=
  {| name := n; type := type a; in_key := in_key a; nullable := nullable a;
     default := default a; comment := comment a; autoincrement := autoincrement a;
     numeric := numeric a; string_ := string_ a; is_blob := is_blob a;
     sql_expression := e; dtype := dtype a |}.

Definition sql_literals : list string := ["CURRENT_TIMESTAMP"].

(** The [default] local of [Attribute.sql]. *)
Definition sql_default (a : Attribute) : string :=
  if nullable a then "DEFAULT NULL"
  else
    "NOT NULL" ++
    match default a with
    | Some (String c0 _ as d) =>
        let quote := negb (mem (upper d) sql_literals)
                     && negb (char_in c0 (String dquote (str1 squote))) in
        " DEFAULT " ++ (if quote then DQ ++ d ++ DQ else d)
    | _ => EmptyString
    end.

(** The two characters of the raw string tested against the comment:
    backslash and double quote. *)
Definition illegal_comment_chars : string := String backslash (str1 dquote).

Definition has_illegal_char (s : string) : bool :=
  existsb (fun c => char_in c illegal_comment_chars) (list_ascii_of_string s).

(** [Attribute.sql] *)
Definition sql (a : Attribute) : Res string :=
  let default := sql_default a in
  if has_illegal_char (comment a) then
    Raise (mkExn DataJointError
             ("Illegal characters in attribute comment " ++ DQ ++ comment a ++ DQ))
  else
    Ret (BT ++ name a ++ BT ++ " " ++ type a ++ " " ++ default
            ++ " COMMENT " ++ DQ ++ comment a ++ DQ).

(** ** Headings *)

(** [OrderedDict] from attribute names to attributes: an association list in
    insertion order. Setting a key that is present replaces its value in
    place; a new key is appended. *)
Definition OrderedDict := list (string * Attribute).

Fixpoint od_set (k : string) (v : Attribute) (d : OrderedDict) : OrderedDict :=
  match d with
  | [] => [(k, v)]
  | (k', v') :: r =>
      if String.eqb k' k then (k, v) :: r else (k', v') :: od_set k v r
  end.

(** [d[k]], [None] standing for [KeyError]. *)
Fixpoint od_get (k : string) (d : OrderedDict) : option Attribute :=
  match d with
  | [] => None
  | (k', v) :: r => if String.eqb k' k then Some v else od_get k r
  end.

(** [OrderedDict(items)] *)
Definition od_of_items (items : list (string * Attribute)) : OrderedDict :=
  fold_left (fun d kv => od_set (fst kv) (snd kv) d) items [].

(** An initialised heading ([self.attributes] is not [None]); [table_info]
    plays no part in the algebra and is left out. *)
Record Heading := mkHeading { attributes : OrderedDict }.

(** [Heading(arg)]: the ordered dict of the pairs [q['name'], Attribute q]
    for [q] in [arg]. *)
Definition Heading_init (arg : list Attribute) : Heading :=
  mkHeading (od_of_items (map (fun q => (name q, q)) arg)).

(** [Heading.names] *)
Definition names (h : Heading) : list string := map fst (attributes h).

(** [self.attributes.values()] *)
Definition values (h : Heading) : list Attribute := map snd (attributes h).

(** [Heading.primary_key] *)
Definition primary_key (h : Heading) : list string :=
  map fst (filter (fun kv => in_key (snd kv)) (attributes h)).

(** [Heading.__getitem__] *)
Definition getitem (h : Heading) (n : string) : Res Attribute :=
  match od_get n (attributes h) with
  | Some v => Ret v
  | None => Raise (mkExn KeyError n)
  end.

(** What every heading built by [Heading_init] satisfies: names are unique and
    each attribute is stored under its own name. *)
Definition wf_heading (h : Heading) : Prop :=
  NoDup (names h) /\ Forall (fun kv => name (snd kv) = fst kv) (attributes h).

(** *** Introspection *)

(** One record of [SHOW FULL COLUMNS], after [Privileges] and [Collation]
    are dropped. *)
Record Column := mkColumn {
  col_Field : string;
  col_Type : string;
  col_Null : string;
  col_Default : option string;
  col_Key : string;
  col_Comment : string;
  col_Extra : string
}.

Definition numeric_types : list ((string * bool) * Dtype) :=
  [ (("float", false), float32);
    (("float", true), float32);
    (("double", false), float32);
    (("double", true), float64);
    (("tinyint", false), int8);
    (("tinyint", true), uint8);
    (("smallint", false), int16);
    (("smallint", true), uint16);
    (("mediumint", false), int32);
    (("mediumint", true), uint32);
    (("int", false), int32);
    (("int", true), uint32);
    (("bigint", false), int64);
    (("bigint", true), uint64) ].

Fixpoint numeric_types_get (t : string) (u : bool)
  (tbl : list ((string * bool) * Dtype)) : option Dtype :=
  match tbl with
  | [] => None
  | ((t', u'), d) :: r =>
      if String.eqb t' t && Bool.eqb u' u then Some d else numeric_types_get t u r
  end.

(** [(tiny|small|medium|big)?int] *)
Definition integer_pattern : list string :=
  ["tinyint"; "smallint"; "mediumint"; "bigint"; "int"].

(** [(double|float)] *)
Definition float_pattern : list string := ["double"; "float"].

Definition is_integer (ty : string) : bool := re_match_alt integer_pattern ty.
Definition is_float (ty : string) : bool := re_match_alt float_pattern ty.

(** [(tiny|small|medium|big)?int|decimal|double|float] *)
Definition is_numeric (ty : string) : bool :=
  re_match_alt (integer_pattern ++ ["decimal"; "double"; "float"])%list ty.

(** [(var)?char|enum|date|time|timestamp] *)
Definition is_string (ty : string) : bool :=
  re_match_alt ["varchar"; "char"; "enum"; "date"; "time"; "timestamp"] ty.

(** [(tiny|medium|long)?blob] *)
Definition is_blob_type (ty : string) : bool :=
  re_match_alt ["tinyblob"; "mediumblob"; "longblob"; "blob"] ty.

(** The [is_unsigned] local of [init_from_database]. *)
Definition is_unsigned (ty : string) : bool := re_match_space_unsigned ty.

(** The block that fills out [attr['dtype']] (lines 188-198). *)
Definition resolve_dtype (ty : string) (nullable : bool) : Res Dtype :=
  if is_numeric ty then
    if (is_integer ty && negb nullable) || is_float ty then
      let t := sub_unsigned (sub_parens 0 ty) in
      match numeric_types_get t (is_unsigned ty) numeric_types with
      | Some d => Ret d
      | None => Raise (mkExn AssertionError ("dtype not found for type " ++ t))
      end
    else Ret object
  else Ret object.

(** The body of the loop over the columns. *)
Definition init_attribute (database table_name : string) (x : Column)
  : Res Attribute :=
  let nullable := String.eqb (col_Null x) "YES" in
  let in_key := String.eqb (col_Key x) "PRI" in
  let autoincrement := re_search_ci "auto_increment" (col_Extra x) in
  let numeric := is_numeric (col_Type x) in
  let string_ := is_string (col_Type x) in
  let is_blob := is_blob_type (col_Type x) in
  if negb (numeric || string_ || is_blob) then
    Raise (mkExn DataJointError
             ("Unsupported field type " ++ col_Type x ++ " in " ++
              BT ++ database ++ BT ++ "." ++ BT ++ table_name ++ BT))
  else
    match resolve_dtype (col_Type x) nullable with
    | Raise e => Raise e
    | Ret d =>
        Ret {| name := col_Field x; type := col_Type x; in_key := in_key;
               nullable := nullable; default := col_Default x;
               comment := col_Comment x; autoincrement := autoincrement;
               numeric := Some numeric; string_ := Some string_;
               is_blob := is_blob; sql_expression := None; dtype := d |}
    end.

(** [Heading.init_from_database]; [info_found] tells whether
    [SHOW TABLE STATUS] returned a row and [columns] is what
    [SHOW FULL COLUMNS] returned. *)
Definition init_from_database (database table_name : string)
  (info_found : bool) (columns : list Column) : Res Heading :=
  if negb info_found then
    Raise (mkExn DataJointError "The table is not defined.")
  else
    match mapM (init_attribute database table_name) columns with
    | Raise e => Raise e
    | Ret attrs => Ret (Heading_init attrs)
    end.

(** *** Algebra *)

(** The optional [('in_key', k in force_primary_key)] update. *)
Definition force_key (force_primary_key : option (list string)) (k : string)
  (a : Attribute) : Attribute :=
  match force_primary_key with
  | None => a
  | Some pk => set_in_key (mem k pk) a
  end.

(** The entry of [project] for one [(new_name, sql_expression)]:
    [sql_expression in self.names] is the test that
    [self.attributes[sql_expression]] is defined. *)
Definition named_attribute (h : Heading) (force_primary_key : option (list string))
  (item : string * string) : Attribute :=
  let (new_name, sql_expression) := item in
  match od_get sql_expression (attributes h) with
  | Some v =>   (* rename attribute *)
      force_key force_primary_key sql_expression
        (set_name_expression new_name (Some (BT ++ sql_expression ++ BT)) v)
  | None =>     (* compute attribute *)
      set_name_expression new_name (Some sql_expression)
        (default_attribute_properties new_name)
  end.

(** [Heading.project]; [named_attributes] is the dict in iteration order. *)
Definition project (h : Heading) (attribute_list : list string)
  (named_attributes : list (string * string))
  (force_primary_key : option (list string)) : Res Heading :=
  match find (fun a => negb (mem a (names h))) attribute_list with
  | Some a =>
      Raise (mkExn DataJointError ("Attribute " ++ BT ++ a ++ BT ++ " is not found"))
  | None =>
      Ret (Heading_init
             (map (fun kv => force_key force_primary_key (fst kv) (snd kv))
                  (filter (fun kv => mem (fst kv) attribute_list) (attributes h))
              ++ map (named_attribute h force_primary_key) named_attributes)%list)
  end.

(** [Heading.join] *)
Definition join (h other : Heading) : Res Heading :=
  match mapM (getitem other)
             (filter (fun n => negb (mem n (names h))) (names other)) with
  | Raise e => Raise e
  | Ret vs => Ret (Heading_init (values h ++ vs)%list)
  end.

(** [Heading.make_subquery_heading] *)
Definition make_subquery_heading (h : Heading) : Heading :=
  Heading_init (map (fun v => set_name_expression (name v) None v) (values h)).

(** [Heading.extend_primary_key] *)
Definition extend_primary_key (h : Heading) (new_attributes : list string)
  : Res Heading :=
  match find (fun a => negb (mem a (names h))) new_attributes with
  | Some a =>
      Raise (mkExn DataJointError ("Attribute " ++ BT ++ a ++ BT ++ " is not found"))
  | None =>
      Ret (Heading_init
             (map (fun v => set_in_key (in_key v || mem (name v) new_attributes) v)
                  (values h)))
  end.

(** ** Stateful code: a state and exception monad

    [M W A] is a computation over a state [W] that returns an [A] or raises;
    the state reached is kept in both cases, as assignments made before a
    [raise] are. *)

Definition M (W A : Type) : Type := W -> Res A * W.

Definition ret {W A : Type} (a : A) : M W A := fun w => (Ret a, w).

Definition raise {W A : Type} (e : Exn) : M W A := fun w => (Raise e, w).

Definition bind {W A B : Type} (m : M W A) (f : A -> M W B) : M W B :=
  fun w =>
    match m w with
    | (Ret a, w') => f a w'
    | (Raise e, w') => (Raise e, w')
    end.

(** [try: m / except <handles> as e: handler e / else: continue a]: the
    [else] block runs outside the protection of the [try]. *)
Definition try_except_else {W A B : Type} (m : M W A) (handles : Exn -> bool)
  (handler : Exn -> M W B) (continue : A -> M W B) : M W B :=
  fun w =>
    match m w with
    | (Ret a, w') => continue a w'
    | (Raise e, w') => if handles e then handler e w' else (Raise e, w')
    end.

Definition try_except {W A : Type} (m : M W A) (handles : Exn -> bool)
  (handler : Exn -> M W A) : M W A :=
  try_except_else m handles handler ret.

Notation "x <- m ;; k" := (bind m (fun x => k))
  (at level 61, m at next level, right associativity).
Notation "m ;; k" := (bind m (fun _ => k))
  (at level 61, right associativity).

(** [except OperationalError] *)
Definition is_OperationalError (e : Exn) : bool :=
  ExnClass_eqb (exn_class e) OperationalError.

(** [except Exception] *)
Definition is_Exception (e : Exn) : bool := true.

(** ** The world outside the process

    The MySQL server behind [pymysql], the job table, the relations and the
    user's [_make_tuples] are collaborators: each of their operations is a
    function of an abstract server state that returns or raises. Every call
    is recorded, with its outcome, in a trace. *)

Section World.

Context {Server Key Restrictions Relation : Type}.

Inductive Call :=
| c_ping                                 (* self._conn.ping() *)
| c_execute (q : string)                 (* cur.execute(query, args) *)
| c_connect                              (* client.connect(...) *)
| c_warn                                 (* warnings.warn(...) *)
| c_key_source                           (* self.key_source *)
| c_restrict                             (* todo & AndList(restrictions) *)
| c_jobs                                 (* self.connection.jobs[database] *)
| c_fetch_keys                           (* (todo - target.proj()).fetch.keys() *)
| c_shuffle                              (* random.shuffle(keys) *)
| c_reserve (k : Key)                    (* jobs.reserve(table_name, key) *)
| c_complete (k : Key)                   (* jobs.complete(table_name, key) *)
| c_error (k : Key) (error_message : string)   (* jobs.error(...) *)
| c_contains (k : Key)                   (* key in self.target *)
| c_make_tuples (k : Key).               (* self._make_tuples(dict(key)) *)

Inductive Outcome :=
| Returned
| Raised (e : Exn).

Record Event := mkEvent { ev_call : Call; ev_outcome : Outcome }.

Definition Ext (A : Type) : Type := Server -> Res A * Server.

Record Environment := mkEnvironment {
  reconnect : bool;                      (* config['database.reconnect'] *)
  conn_ping : Ext bool;                  (* truth value of the result of ping *)
  cur_execute : string -> Ext unit;
  client_connect : Ext unit;
  rel_key_source : Ext Relation;
  is_RelationalOperand : Relation -> bool;
  rel_restrict : Relation -> Restrictions -> Ext Relation;
  conn_jobs : Ext unit;
  rel_fetch_keys : Relation -> Ext (list Key);
  random_shuffle : list Key -> Ext (list Key);
  jobs_reserve : Key -> Ext bool;
  jobs_complete : Key -> Ext unit;
  jobs_error : Key -> string -> Ext unit;
  target_contains : Key -> Ext bool;
  _make_tuples : Key -> Ext unit
}.

(** The connection object ([_in_transaction]), the collaborators' state and
    the trace of the calls made so far. *)
Record World := mkWorld {
  _in_transaction : bool;
  server : Server;
  trace : list Event
}.

Definition outcome_of {A : Type} (r : Res A) : Outcome :=
  match r with
  | Ret _ => Returned
  | Raise e => Raised e
  end.

(** A call to a collaborator. *)
Definition extern {A : Type} (c : Call) (op : Ext A) : M World A :=
  fun w =>
    let (r, s) := op (server w) in
    (r, {| _in_transaction := _in_transaction w;
           server := s;
           trace := (trace w ++ [mkEvent c (outcome_of r)])%list |}).

Definition get_in_transaction : M World bool :=
  fun w => (Ret (_in_transaction w), w).

Definition set_in_transaction (b : bool) : M World unit :=
  fun w => (Ret tt, {| _in_transaction := b; server := server w; trace := trace w |}).

Variable env : Environment.

(** *** connection.py *)

(** [Connection.is_connected] *)
Definition is_connected : M World bool := extern c_ping (conn_ping env).

(** [Connection.connect] *)
Definition connect : M World unit := extern c_connect (client_connect env).

(** [Connection.query]: the statement is executed; an [OperationalError]
    that says the server has gone away is answered, when reconnection is
    configured, by a warning and a reconnection, and the call returns.
    Creating the cursor and logging do no input or output on the server and
    are left out. *)
Definition query (q : string) : M World unit :=
  try_except (extern (c_execute q) (cur_execute env q)) is_OperationalError
    (fun e =>
       if contains "MySQL server has gone away" (exn_str e) && reconnect env then
         extern c_warn (fun s => (Ret tt, s)) ;;
         connect
       else raise e).

(** [Connection.in_transaction]: [and] evaluates the probe only when the
    flag is set, and the result is stored back into the flag. *)
Definition in_transaction : M World bool :=
  flag <- get_in_transaction ;;
  b <- (if flag then is_connected else ret false) ;;
  set_in_transaction b ;;
  ret b.

(** [Connection.start_transaction] *)
Definition start_transaction : M World unit :=
  b <- in_transaction ;;
  if b then raise (mkExn DataJointError "Nested connections are not supported.")
  else
    query "START TRANSACTION WITH CONSISTENT SNAPSHOT" ;;
    set_in_transaction true.

(** [Connection.cancel_transaction] *)
Definition cancel_transaction : M World unit :=
  query "ROLLBACK" ;;
  set_in_transaction false.

(** [Connection.commit_transaction] *)
Definition commit_transaction : M World unit :=
  query "COMMIT" ;;
  set_in_transaction false.

(** *** autopopulate.py *)

Definition ErrorList : Type := option (list (Key * Exn)).

Variables (suppress_errors reserve_jobs : bool).

(** [if reserve_jobs: m] *)
Definition when_reserving (m : M World unit) : M World unit :=
  if reserve_jobs then m else ret tt.

(** [error_list.append((key, error))]; [error_list] is [None] when errors
    are not suppressed. *)
Definition append_error (error_list : ErrorList) (key : Key) (error : Exn)
  : M World ErrorList :=
  match error_list with
  | Some l => ret (Some (l ++ [(key, error)])%list)
  | None =>
      raise (mkExn AttributeError "'NoneType' object has no attribute 'append'")
  end.

(** The [except Exception as error] block of [populate] (lines 103-115). *)
Definition on_failure (key : Key) (error_list : ErrorList) (error : Exn)
  : M World ErrorList :=
  try_except cancel_transaction is_OperationalError (fun _ => ret tt) ;;
  when_reserving (extern (c_error key (exn_str error))
                         (jobs_error env key (exn_str error))) ;;
  if negb suppress_errors then raise error
  else append_error error_list key error.

(** The [else] block of the [try] (lines 116-119). *)
Definition on_success (key : Key) (error_list : ErrorList) : M World ErrorList :=
  commit_transaction ;;
  when_reserving (extern (c_complete key) (jobs_complete env key)) ;;
  ret error_list.

(** The [try] statement around the computation hook (lines 101-119). *)
Definition make (key : Key) (error_list : ErrorList) : M World ErrorList :=
  try_except_else (extern (c_make_tuples key) (_make_tuples env key))
    is_Exception
    (on_failure key error_list)
    (fun _ => on_success key error_list).

(** The body of [for key in keys] (lines 93-119). *)
Definition populate_key (key : Key) (error_list : ErrorList) : M World ErrorList :=
  go <- (if negb reserve_jobs then ret true
         else extern (c_reserve key) (jobs_reserve env key)) ;;
  if go then
    start_transaction ;;
    present <- extern (c_contains key) (target_contains env key) ;;
    if present then   (* already populated *)
      cancel_transaction ;;
      when_reserving (extern (c_complete key) (jobs_complete env key)) ;;
      ret error_list
    else make key error_list
  else ret error_list.

(** [for key in keys: ...] followed by [return error_list]. *)
Fixpoint populate_loop (keys : list Key) (error_list : ErrorList)
  : M World ErrorList :=
  match keys with
  | [] => ret error_list
  | key :: rest =>
      error_list' <- populate_key key error_list ;;
      populate_loop rest error_list'
  end.

Definition valid_order : list string := ["original"; "reverse"; "random"].

(** [AutoPopulate.populate] *)
Definition populate (restrictions : Restrictions) (order : string)
  : M World ErrorList :=
  b <- in_transaction ;;
  if b then
    raise (mkExn DataJointError "Populate cannot be called during a transaction.")
  else if negb (mem order valid_order) then
    raise (mkExn DataJointError
             "The order argument must be one of ['original', 'reverse', 'random']")
  else
    todo <- extern c_key_source (rel_key_source env) ;;
    if negb (is_RelationalOperand env todo) then
      raise (mkExn DataJointError "Invalid key_source value")
    else
      todo <- extern c_restrict (rel_restrict env todo restrictions) ;;
      let error_list : ErrorList := if suppress_errors then Some [] else None in
      when_reserving (extern c_jobs (conn_jobs env)) ;;
      keys <- extern c_fetch_keys (rel_fetch_keys env todo) ;;
      keys <- (if String.eqb order "reverse" then ret (rev keys)
               else if String.eqb order "random" then
                 extern c_shuffle (random_shuffle env keys)
               else ret keys) ;;
      populate_loop keys error_list.

(** The pairs [(key, error)] of the hook calls that raised, in the order of
    the trace. *)
Fixpoint failures (tr : list Event) : list (Key * Exn) :=
  match tr with
  | [] => []
  | mkEvent (c_make_tuples k) (Raised e) :: r => (k, e) :: failures r
  | _ :: r => failures r
  end.

Definition is_hook_call (c : Call) : bool :=
  match c with
  | c_make_tuples _ => true
  | _ => false
  end.

(** A computation that adds to the trace, and adds no failure of the hook. *)
Definition quiet {A : Type} (m : M World A) : Prop :=
  forall w r w', m w = (r, w') ->
    exists tr, trace w' = (trace w ++ tr)%list /\ failures tr = [].

End World.

Arguments Call : clear implicits.
Arguments Event : clear implicits.
Arguments Ext : clear implicits.
Arguments Environment : clear implicits.
Arguments World : clear implicits.
Arguments ErrorList : clear implicits.

(** ** Concrete values used to exercise the model *)

Module Sample.

Definition attr (n ty : string) (key : bool) (c : string) (d : Dtype) : Attribute :=
  {| name := n; type := ty; in_key := key; nullable := false; default := None;
     comment := c; autoincrement := false; numeric := Some true;
     string_ := Some false; is_blob := false; sql_expression := None; dtype := d |}.

(** A table with key [x] and one dependent attribute. *)
Definition A : Heading :=
  Heading_init [attr "x" "int(11)" true "x of A" int32;
                attr "a" "float" false "a of A" float32].

(** Shares [x] with [A], under another descriptor. *)
Definition B : Heading :=
  Heading_init [attr "b" "smallint(6)" true "b of B" int16;
                attr "x" "bigint(20)" false "x of B" int64].

Definition col (n ty null : string) : Column :=
  {| col_Field := n; col_Type := ty; col_Null := null; col_Default := None;
     col_Key := EmptyString; col_Comment := EmptyString; col_Extra := EmptyString |}.

(** A scripted world: keys are numbers, the server has no state of its own.
    [alive] is what the probe answers, [stmt] what executing each statement
    answers, [todo] the keys to populate; the hook fails on key 1. *)
Definition boom : Exn := mkExn OtherException "boom".

Definition gone : Exn := mkExn OperationalError "(2013, 'Lost connection')".

(** Every statement succeeds. *)
Definition ok : string -> Res unit := fun _ => Ret tt.

(** Statement [q0] fails with [e], every other statement succeeds. *)
Definition failing (q0 : string) (e : Exn) : string -> Res unit :=
  fun q => if String.eqb q q0 then Raise e else Ret tt.

Definition env (alive : bool) (stmt : string -> Res unit) (todo : list nat)
  : Environment unit nat unit unit :=
  {| reconnect := false;
     conn_ping := fun s => (Ret alive, s);
     cur_execute := fun q s => (stmt q, s);
     client_connect := fun s => (Ret tt, s);
     rel_key_source := fun s => (Ret tt, s);
     is_RelationalOperand := fun _ => true;
     rel_restrict := fun r _ s => (Ret r, s);
     conn_jobs := fun s => (Ret tt, s);
     rel_fetch_keys := fun _ s => (Ret todo, s);
     random_shuffle := fun l s => (Ret l, s);
     jobs_reserve := fun _ s => (Ret true, s);
     jobs_complete := fun _ s => (Ret tt, s);
     jobs_error := fun _ _ s => (Ret tt, s);
     target_contains := fun _ s => (Ret false, s);
     _make_tuples := fun k s => (if Nat.eqb k 1 then Raise boom else Ret tt, s) |}.

(** A connection with no transaction open, and one inside a transaction. *)
Definition idle : World unit nat :=
  {| _in_transaction := false; server := tt; trace := [] |}.

Definition busy : World unit nat :=
  {| _in_transaction := true; server := tt; trace := [] |}.

End Sample.

(** ** More of heading.py *)

(** [Heading.dependent_attributes] *)
Definition dependent_attributes (h : Heading) : list string :=
  map fst (filter (fun kv => negb (in_key (snd kv))) (attributes h)).

(** [Heading.blobs] *)
Definition blobs (h : Heading) : list string :=
  map fst (filter (fun kv => is_blob (snd kv)) (attributes h)).

(** [Heading.non_blobs] *)
Definition non_blobs (h : Heading) : list string :=
  map fst (filter (fun kv => negb (is_blob (snd kv))) (attributes h)).

(** [v.sql_expression is not None] *)
Definition has_expression (v : Attribute) : bool :=
  match sql_expression v with
  | Some _ => true
  | None => false
  end.

(** [Heading.expressions] *)
Definition expressions (h : Heading) : list string :=
  map fst (filter (fun kv => has_expression (snd kv)) (attributes h)).

(** [Heading.has_autoincrement] *)
Definition has_autoincrement (h : Heading) : bool :=
  existsb autoincrement (values h).

(** One element of the list joined by [Heading.as_sql]. *)
Definition as_sql_field (h : Heading) (n : string) : Res string :=
  match getitem h n with
  | Raise e => Raise e
  | Ret v =>
      match sql_expression v with
      | None => Ret (BT ++ n ++ BT)
      | Some e => Ret (e ++ " as " ++ BT ++ n ++ BT)
      end
  end.

(** [Heading.as_sql] *)
Definition as_sql (h : Heading) : Res string :=
  match mapM (as_sql_field h) (names h) with
  | Raise e => Raise e
  | Ret fields => Ret (String.concat "," fields)
  end.

(** What [extend_primary_key] makes of one entry of a heading. *)
Definition extended (new_attributes : list string) (kv : string * Attribute)
  : string * Attribute :=
  (fst kv,
   set_in_key (in_key (snd kv) || mem (fst kv) new_attributes) (snd kv)).

(** What [make_subquery_heading] makes of one attribute. *)
Definition without_expression (v : Attribute) : Attribute :=
  set_name_expression (name v) None v.

(** A name as [as_sql] writes it when the attribute has no expression. *)
Definition backticked (n : string) : string := BT ++ n ++ BT.

(** No pattern of [l1] is a prefix of a pattern of [l2], nor the other way
    round: no string matches an alternative of each. *)
Definition apart (l1 l2 : list string) : bool :=
  forallb (fun p => forallb (fun q => negb (prefix p q) && negb (prefix q p)) l2) l1.


(** The test of [init_from_database] that a column type is classified. *)
Definition supported (ty : string) : bool :=
  is_numeric ty || is_string ty || is_blob_type ty.

(** [l1] is [l2] with some elements left out. *)
Inductive subseq {A : Type} : list A -> list A -> Prop :=
| subseq_nil : subseq [] []
| subseq_skip (x : A) (l1 l2 : list A) : subseq l1 l2 -> subseq l1 (x :: l2)
| subseq_take (x : A) (l1 l2 : list A) : subseq l1 l2 -> subseq (x :: l1) (x :: l2).

(** ** More of connection.py and of the traces of populate *)

(** What [start_transaction] raises inside a transaction. *)
Definition nested : Exn :=
  mkExn DataJointError "Nested connections are not supported.".

Section Scoped.

Context {Server Key Restrictions Relation : Type}.
Variable env : Environment Server Key Restrictions Relation.

(** The bare [except:] of [Connection.transaction]. *)
Definition any_exception (e : Exn) : bool := true.

(** [with connection.transaction: body]. The generator of
    [Connection.transaction] runs up to its [yield] on entry, inside the
    [try]; an exception of the body is thrown into the generator at the
    [yield]; a body that returns resumes the generator, which runs the
    [else] block. *)
Definition transaction {A : Type} (body : M (World Server Key) A)
  : M (World Server Key) A :=
  try_except_else (start_transaction env) any_exception
    (fun e => cancel_transaction env ;; raise e)
    (fun _ =>
       try_except_else body any_exception
         (fun e => cancel_transaction env ;; raise e)
         (fun a => commit_transaction env ;; ret a)).

(** The keys handed to the computation hook, in the order of the trace. *)
Fixpoint hook_calls (tr : list (Event Key)) : list Key :=
  match tr with
  | [] => []
  | mkEvent (c_make_tuples k) _ :: r => k :: hook_calls r
  | _ :: r => hook_calls r
  end.

(** The statements executed, in the order of the trace. *)
Fixpoint statements (tr : list (Event Key)) : list string :=
  match tr with
  | [] => []
  | mkEvent (c_execute q) _ :: r => q :: statements r
  | _ :: r => statements r
  end.

(** A computation that adds to the trace, and never calls the hook. *)
Definition hookless {A : Type} (m : M (World Server Key) A) : Prop :=
  forall w r w', m w = (r, w') ->
    exists tr, trace w' = (trace w ++ tr)%list /\ hook_calls tr = [].

End Scoped.

Module Scenario.

(** The server went away, and reconnection is configured. *)
Definition went_away : Exn :=
  mkExn OperationalError "(2006, 'MySQL server has gone away')".

(** A scripted world like [Sample.env], with the configuration and the
    answers of the job store and of the target as parameters as well. *)
Definition env (reconnecting alive : bool) (stmt : string -> Res unit)
  (grant present : nat -> bool) (todo : list nat)
  : Environment unit nat unit unit :=
  {| reconnect := reconnecting;
     conn_ping := fun s => (Ret alive, s);
     cur_execute := fun q s => (stmt q, s);
     client_connect := fun s => (Ret tt, s);
     rel_key_source := fun s => (Ret tt, s);
     is_RelationalOperand := fun _ => true;
     rel_restrict := fun r _ s => (Ret r, s);
     conn_jobs := fun s => (Ret tt, s);
     rel_fetch_keys := fun _ s => (Ret todo, s);
     random_shuffle := fun l s => (Ret l, s);
     jobs_reserve := fun k s => (Ret (grant k), s);
     jobs_complete := fun _ s => (Ret tt, s);
     jobs_error := fun _ _ s => (Ret tt, s);
     target_contains := fun k s => (Ret (present k), s);
     _make_tuples := fun k s => (if Nat.eqb k 1 then Raise Sample.boom else Ret tt, s) |}.

Definition always (b : bool) : nat -> bool := fun _ => b.

(** The columns of a table with an integer key, a nullable text and a
    blob, and what introspection makes of them. *)
Definition columns : list Column :=
  [ {| col_Field := "id"; col_Type := "int(11)"; col_Null := "NO";
       col_Default := None; col_Key := "PRI"; col_Comment := "unique id";
       col_Extra := "auto_increment" |};
    {| col_Field := "note"; col_Type := "varchar(255)"; col_Null := "YES";
       col_Default := None; col_Key := EmptyString; col_Comment := "free text";
       col_Extra := EmptyString |};
    {| col_Field := "image"; col_Type := "longblob"; col_Null := "YES";
       col_Default := None; col_Key := EmptyString; col_Comment := "raw image";
       col_Extra := EmptyString |} ].

Definition table : Res Heading :=
  init_from_database "lab" "session" true columns.


(** A derived heading: [x] kept, [a] renamed to [y], [z] computed. *)
Definition derived : Res Heading :=
  project Sample.A ["x"] [("y", "a"); ("z", "x + 1")] None.

End Scenario.

(** * Properties *)

(** ** Membership and ordered dictionaries *)

Lemma mem_In (x : string) (l : list string) : mem x l = true <-> In x l.
Proof.
  unfold mem. rewrite existsb_exists. split.
  - intros [y [Hy Heq]]. apply String.eqb_eq in Heq. now subst.
  - intros H. exists x. split; [assumption | apply String.eqb_refl].
Qed.

Lemma mem_not_In (x : string) (l : list string) : mem x l = false <-> ~ In x l.
Proof.
  rewrite <- mem_In. destruct (mem x l); split; intros; congruence.
Qed.

Lemma od_set_fresh (k : string) (v : Attribute) (d : OrderedDict) :
  ~ In k (map fst d) -> od_set k v d = (d ++ [(k, v)])%list.
Proof.
  induction d as [| [k' v'] d IH]; simpl; intros Hk; [reflexivity |].
  destruct (String.eqb_spec k' k) as [-> | Hne].
  - exfalso. apply Hk. now left.
  - rewrite IH; [reflexivity | intros H; apply Hk; now right].
Qed.

Lemma od_fold_nodup (items acc : list (string * Attribute)) :
  NoDup (map fst (acc ++ items)%list) ->
  fold_left (fun d kv => od_set (fst kv) (snd kv) d) items acc = (acc ++ items)%list.
Proof.
  revert acc. induction items as [| [k v] items IH]; intros acc Hnd; simpl.
  - now rewrite app_nil_r.
  - rewrite od_set_fresh.
    + rewrite IH; rewrite <- app_assoc; [reflexivity | exact Hnd].
    + rewrite map_app in Hnd. simpl in Hnd.
      apply NoDup_remove_2 in Hnd. intros H. apply Hnd.
      apply in_or_app. now left.
Qed.

(** Building an ordered dict from items with distinct keys keeps the items. *)
Lemma od_of_items_nodup (items : list (string * Attribute)) :
  NoDup (map fst items) -> od_of_items items = items.
Proof.
  intros H. unfold od_of_items. now rewrite od_fold_nodup.
Qed.

Lemma od_get_set_same (k : string) (v : Attribute) (d : OrderedDict) :
  od_get k (od_set k v d) = Some v.
Proof.
  induction d as [| [k' v'] d IH]; simpl.
  - now rewrite String.eqb_refl.
  - destruct (String.eqb_spec k' k) as [-> | Hne]; simpl.
    + now rewrite String.eqb_refl.
    + destruct (String.eqb_spec k' k); [contradiction | exact IH].
Qed.

Lemma od_get_set_other (k k' : string) (v : Attribute) (d : OrderedDict) :
  k' <> k -> od_get k (od_set k' v d) = od_get k d.
Proof.
  intros Hne. induction d as [| [k0 v0] d IH]; simpl.
  - destruct (String.eqb_spec k' k); [contradiction | reflexivity].
  - destruct (String.eqb_spec k0 k') as [-> | Hne0]; simpl.
    + destruct (String.eqb_spec k' k); [contradiction | reflexivity].
    + destruct (String.eqb_spec k0 k); [reflexivity | exact IH].
Qed.

(** Items that do not mention [k] leave its entry alone. *)
Lemma od_get_fold_other (k : string) (items acc : list (string * Attribute)) :
  ~ In k (map fst items) ->
  od_get k (fold_left (fun d kv => od_set (fst kv) (snd kv) d) items acc)
  = od_get k acc.
Proof.
  revert acc. induction items as [| [k' v'] items IH]; intros acc Hk; simpl.
  - reflexivity.
  - rewrite IH by (intros H; apply Hk; now right).
    apply od_get_set_other. intros ->. apply Hk. now left.
Qed.

(** The last item written under a key is the one found. *)
Lemma od_get_of_items_last (k : string) (v : Attribute)
  (before after : list (string * Attribute)) :
  ~ In k (map fst after) ->
  od_get k (od_of_items (before ++ (k, v) :: after)%list) = Some v.
Proof.
  intros Hk. unfold od_of_items. rewrite fold_left_app. simpl.
  rewrite od_get_fold_other by exact Hk. apply od_get_set_same.
Qed.

Lemma od_get_In (k : string) (v : Attribute) (d : OrderedDict) :
  NoDup (map fst d) -> In (k, v) d -> od_get k d = Some v.
Proof.
  induction d as [| [k' v'] d IH]; simpl; intros Hnd Hin; [contradiction |].
  inversion Hnd as [| ? ? Hnotin Hnd']; subst.
  destruct Hin as [Heq | Hin].
  - inversion Heq; subst. now rewrite String.eqb_refl.
  - destruct (String.eqb_spec k' k) as [-> | Hne].
    + exfalso. apply Hnotin. apply in_map_iff. now exists (k, v).
    + now apply IH.
Qed.

Lemma od_get_defined (k : string) (d : OrderedDict) :
  In k (map fst d) -> exists v, od_get k d = Some v.
Proof.
  induction d as [| [k' v'] d IH]; simpl; intros Hin; [contradiction |].
  destruct (String.eqb_spec k' k) as [-> | Hne]; [now exists v' |].
  destruct Hin as [Heq | Hin]; [contradiction | now apply IH].
Qed.

Lemma filter_map_fst {B : Type} (p : string -> bool) (d : list (string * B)) :
  filter p (map fst d) = map fst (filter (fun kv => p (fst kv)) d).
Proof.
  induction d as [| [k v] d IH]; simpl; [reflexivity |].
  destruct (p k); simpl; now rewrite IH.
Qed.

Lemma NoDup_filter {B : Type} (p : B -> bool) (l : list B) :
  NoDup l -> NoDup (filter p l).
Proof.
  induction 1 as [| x l Hx Hnd IH]; simpl; [constructor |].
  destruct (p x); [| exact IH].
  constructor; [| exact IH]. intros H. apply filter_In in H. tauto.
Qed.

(** ** Attribute.sql *)

Lemma has_illegal_char_eq (s : string) :
  has_illegal_char s = char_in backslash s || char_in dquote s.
Proof.
  unfold has_illegal_char.
  induction s as [| c s IH]; [reflexivity |].
  cbn [list_ascii_of_string existsb]. rewrite IH.
  unfold illegal_comment_chars, str1. cbn [char_in].
  rewrite (Ascii.eqb_sym backslash c), (Ascii.eqb_sym dquote c).
  destruct (Ascii.eqb c backslash), (Ascii.eqb c dquote),
    (char_in backslash s), (char_in dquote s); reflexivity.
Qed.

Lemma has_illegal_char_spec (s : string) :
  has_illegal_char s = true <->
  char_in dquote s = true \/ char_in backslash s = true.
Proof.
  rewrite has_illegal_char_eq, orb_true_iff. tauto.
Qed.

(** C8: rendering the schema-definition clause of an attribute fails exactly
    when its comment contains a double quote or a backslash; for a legal
    comment, a non-nullable attribute with no default renders as the
    back-ticked name, the type, NOT NULL and the double-quoted comment. *)
Theorem C8_sql_clause (a : Attribute) :
  ((exists e, sql a = Raise e) <->
   (char_in dquote (comment a) = true \/ char_in backslash (comment a) = true))
  /\
  (char_in dquote (comment a) = false ->
   char_in backslash (comment a) = false ->
   nullable a = false ->
   default a = None ->
   sql a = Ret (BT ++ name a ++ BT ++ " " ++ type a ++ " NOT NULL COMMENT "
                   ++ DQ ++ comment a ++ DQ)).
Proof.
  split.
  - rewrite <- has_illegal_char_spec. unfold sql.
    destruct (has_illegal_char (comment a)); split.
    + reflexivity.
    + intros _. eexists. reflexivity.
    + intros [e He]. discriminate.
    + discriminate.
  - intros Hq Hb Hn Hd. unfold sql.
    destruct (has_illegal_char (comment a)) eqn:Hill.
    + apply has_illegal_char_spec in Hill. destruct Hill; congruence.
    + unfold sql_default. rewrite Hn, Hd. reflexivity.
Qed.

Lemma C8_sql_clause_witness :
  sql (Sample.attr "COL" "TYPE" false "ok" object)
  = Ret (BT ++ "COL" ++ BT ++ " TYPE NOT NULL COMMENT " ++ DQ ++ "ok" ++ DQ).
Proof.
  apply (proj2 (C8_sql_clause (Sample.attr "COL" "TYPE" false "ok" object)));
    reflexivity.
Defined.

(** A comment with a double quote in it does not render. *)
Example sql_rejects_quoted_comment :
  sql (Sample.attr "COL" "TYPE" false ("say " ++ DQ ++ "ok" ++ DQ) object)
  = Raise (mkExn DataJointError
             ("Illegal characters in attribute comment "
              ++ DQ ++ "say " ++ DQ ++ "ok" ++ DQ ++ DQ)).
Proof. reflexivity. Qed.

(** A default is quoted unless it is CURRENT_TIMESTAMP or already quoted. *)
Example sql_default_quoting :
  sql_default {| name := "t"; type := "timestamp"; in_key := false;
                 nullable := false; default := Some "current_timestamp";
                 comment := EmptyString; autoincrement := false;
                 numeric := Some false; string_ := Some true; is_blob := false;
                 sql_expression := None; dtype := object |}
  = "NOT NULL DEFAULT current_timestamp" /\
  sql_default {| name := "n"; type := "int"; in_key := false;
                 nullable := false; default := Some "0";
                 comment := EmptyString; autoincrement := false;
                 numeric := Some true; string_ := Some false; is_blob := false;
                 sql_expression := None; dtype := int32 |}
  = "NOT NULL DEFAULT " ++ DQ ++ "0" ++ DQ.
Proof. split; reflexivity. Qed.

(** ** Heading.project *)

Lemma name_force_key (pk : option (list string)) (k : string) (a : Attribute) :
  name (force_key pk k a) = name a.
Proof. destruct pk; reflexivity. Qed.

Lemma name_named_attribute (h : Heading) (pk : option (list string))
  (item : string * string) :
  name (named_attribute h pk item) = fst item.
Proof.
  destruct item as [n e]. unfold named_attribute.
  destruct (od_get e (attributes h)); [apply name_force_key | reflexivity].
Qed.

Lemma find_missing_none (h : Heading) (l : list string) :
  (forall a, In a l -> In a (names h)) ->
  find (fun a => negb (mem a (names h))) l = None.
Proof.
  induction l as [| a l IH]; simpl; intros H; [reflexivity |].
  assert (Ha : mem a (names h) = true) by (apply mem_In; apply H; now left).
  rewrite Ha. simpl. apply IH. intros b Hb. apply H. now right.
Qed.

Lemma find_missing_some (h : Heading) (l : list string) (a : string) :
  In a l -> ~ In a (names h) ->
  exists a', find (fun a => negb (mem a (names h))) l = Some a'
             /\ In a' l /\ ~ In a' (names h).
Proof.
  intros Hin Hnot.
  destruct (find (fun a => negb (mem a (names h))) l) as [a' |] eqn:Hf.
  - exists a'. split; [reflexivity |].
    apply find_some in Hf. destruct Hf as [Hl Hm].
    split; [exact Hl |]. apply mem_not_In. now apply negb_true_iff.
  - exfalso. apply (find_none _ _ Hf) in Hin.
    apply negb_false_iff, mem_In in Hin. contradiction.
Qed.

(** The items handed to [Heading_init] by [project], keyed by name. *)
Lemma project_items (h : Heading) (keep : list string)
  (named : list (string * string)) (pk : option (list string)) :
  Forall (fun kv => name (snd kv) = fst kv) (attributes h) ->
  map (fun q => (name q, q))
      (map (fun kv => force_key pk (fst kv) (snd kv))
           (filter (fun kv => mem (fst kv) keep) (attributes h))
       ++ map (named_attribute h pk) named)%list
  = (map (fun kv => (fst kv, force_key pk (fst kv) (snd kv)))
         (filter (fun kv => mem (fst kv) keep) (attributes h))
     ++ map (fun it => (fst it, named_attribute h pk it)) named)%list.
Proof.
  intros Hwf. rewrite map_app, !map_map. f_equal.
  - apply map_ext_in. intros kv Hkv. apply filter_In in Hkv.
    rewrite Forall_forall in Hwf. rewrite name_force_key.
    now rewrite (Hwf kv (proj1 Hkv)).
  - apply map_ext. intros it. now rewrite name_named_attribute.
Qed.

(** Names of a projection: the kept names in source order, then the new
    names in the order of [named], when the new names are fresh. *)
Lemma project_names (h : Heading) (keep : list string)
  (named : list (string * string)) (pk : option (list string)) :
  wf_heading h ->
  (forall a, In a keep -> In a (names h)) ->
  NoDup (filter (fun n => mem n keep) (names h) ++ map fst named)%list ->
  exists h', project h keep named pk = Ret h' /\
             names h' = (filter (fun n => mem n keep) (names h) ++ map fst named)%list.
Proof.
  intros [Hnd Hkey] Hall Hfresh. unfold project.
  rewrite find_missing_none by exact Hall.
  eexists. split; [reflexivity |].
  unfold Heading_init, names at 1. simpl.
  rewrite project_items by exact Hkey.
  assert (Hkeys :
    map fst (map (fun kv => (fst kv, force_key pk (fst kv) (snd kv)))
                 (filter (fun kv => mem (fst kv) keep) (attributes h))
             ++ map (fun it => (fst it, named_attribute h pk it)) named)%list
    = (filter (fun n => mem n keep) (names h) ++ map fst named)%list).
  { rewrite map_app, !map_map. simpl. unfold names.
    now rewrite filter_map_fst. }
  rewrite od_of_items_nodup; [exact Hkeys | now rewrite Hkeys].
Qed.

(** C6: [project h keep {} None] fails with the attribute-not-found error
    when some name of [keep] is not an attribute of [h]; when every name is
    present, the names of the result are the kept names in the source order
    of [h] (no computed attribute follows, the map being empty). *)
Theorem C6_project_keep (h : Heading) (keep : list string) :
  (forall a, In a keep -> ~ In a (names h) ->
     exists a', In a' keep /\ ~ In a' (names h) /\
       project h keep [] None
       = Raise (mkExn DataJointError
                  ("Attribute " ++ BT ++ a' ++ BT ++ " is not found")))
  /\
  (wf_heading h -> (forall a, In a keep -> In a (names h)) ->
     exists h', project h keep [] None = Ret h' /\
       names h' = (filter (fun n => mem n keep) (names h)
                   ++ map fst (@nil (string * string)))%list).
Proof.
  split.
  - intros a Hin Hnot.
    destruct (find_missing_some h keep a Hin Hnot) as [a' [Hf [Hl Hn]]].
    exists a'. repeat split; try assumption.
    unfold project. now rewrite Hf.
  - intros Hwf Hall. apply project_names; try assumption.
    simpl. rewrite app_nil_r. apply NoDup_filter. exact (proj1 Hwf).
Qed.

Lemma wf_Sample_A : wf_heading Sample.A.
Proof.
  split.
  - repeat constructor; simpl; intuition discriminate.
  - repeat constructor.
Qed.

Lemma wf_Sample_B : wf_heading Sample.B.
Proof.
  split.
  - repeat constructor; simpl; intuition discriminate.
  - repeat constructor.
Qed.

Lemma C6_project_keep_witness :
  exists h', project Sample.A ["a"; "x"] [] None = Ret h' /\ names h' = ["x"; "a"].
Proof.
  apply (proj2 (C6_project_keep Sample.A ["a"; "x"]) wf_Sample_A).
  intros a [<- | [<- | []]]; simpl; tauto.
Defined.

(** C10: with a forced key given, a renamed attribute is a key attribute of
    the projection exactly when its ORIGINAL name is in the forced key; the
    new name plays no part. *)
Theorem C10_rename_in_key_follows_source (h : Heading) (keep : list string)
  (named : list (string * string)) (force_primary_key : list string)
  (new_name old_name : string) :
  (forall a, In a keep -> In a (names h)) ->
  NoDup (map fst named) ->
  In (new_name, old_name) named ->
  In old_name (names h) ->
  exists h' a,
    project h keep named (Some force_primary_key) = Ret h' /\
    od_get new_name (attributes h') = Some a /\
    name a = new_name /\
    sql_expression a = Some (BT ++ old_name ++ BT) /\
    in_key a = mem old_name force_primary_key.
Proof.
  intros Hall Hnd Hin Hold.
  destruct (od_get_defined old_name (attributes h) Hold) as [v Hv].
  destruct (in_split _ _ Hin) as [n1 [n2 Hsplit]].
  assert (Hfresh : ~ In new_name (map fst n2)).
  { rewrite Hsplit, map_app in Hnd. simpl in Hnd.
    apply NoDup_remove_2 in Hnd. intros H. apply Hnd.
    apply in_or_app. now right. }
  clear Hin Hnd. subst named.
  unfold project. rewrite find_missing_none by exact Hall.
  eexists. eexists. split; [reflexivity |].
  unfold Heading_init. cbn [attributes].
  rewrite !map_app. cbn [map].
  rewrite app_assoc, name_named_attribute. cbn [fst].
  rewrite od_get_of_items_last.
  - split; [reflexivity |].
    unfold named_attribute. rewrite Hv. cbn. auto.
  - rewrite !map_map. intros H. apply Hfresh.
    apply in_map_iff in H. destruct H as [it [Hn Hit]].
    rewrite name_named_attribute in Hn. apply in_map_iff. now exists it.
Qed.

(** A rename whose new name is in the forced key and whose source name is
    not: the renamed attribute is not a key attribute. *)
Lemma C10_rename_in_key_follows_source_witness :
  exists h' a,
    project Sample.A ["a"] [("y", "x")] (Some ["y"]) = Ret h' /\
    od_get "y" (attributes h') = Some a /\
    name a = "y" /\
    sql_expression a = Some (BT ++ "x" ++ BT) /\
    in_key a = false.
Proof.
  apply (C10_rename_in_key_follows_source Sample.A ["a"] [("y", "x")] ["y"] "y" "x").
  - intros a [<- | []]; simpl; tauto.
  - repeat constructor; simpl; tauto.
  - now left.
  - simpl; tauto.
Defined.

(** ** Heading.join *)

Lemma mapM_getitem_defined (other : Heading) (l : list string) :
  (forall n, In n l -> In n (names other)) ->
  exists vs, mapM (getitem other) l = Ret vs.
Proof.
  induction l as [| n l IH]; intros H; simpl.
  - now exists [].
  - destruct (od_get_defined n (attributes other)) as [v Hv];
      [apply H; now left |].
    unfold getitem at 1. rewrite Hv.
    destruct IH as [vs Hvs]; [intros m Hm; apply H; now right |].
    rewrite Hvs. now exists (v :: vs).
Qed.

Lemma mapM_getitem_sub (other : Heading) (d : OrderedDict) :
  NoDup (names other) ->
  (forall kv, In kv d -> In kv (attributes other)) ->
  mapM (getitem other) (map fst d) = Ret (map snd d).
Proof.
  intros Hnd. induction d as [| [k v] d IH]; intros H; simpl; [reflexivity |].
  unfold getitem at 1.
  rewrite (od_get_In k v (attributes other) Hnd) by (apply H; now left).
  rewrite IH by (intros kv Hkv; apply H; now right). reflexivity.
Qed.

(** On well-formed headings [join] appends to the left attributes the right
    attributes whose names the left heading does not have. *)
Lemma join_attributes (A B : Heading) :
  wf_heading A -> wf_heading B ->
  join A B
  = Ret (mkHeading
           (attributes A
            ++ filter (fun kv => negb (mem (fst kv) (names A))) (attributes B))%list).
Proof.
  intros [HndA HkeyA] [HndB HkeyB]. unfold join.
  unfold names at 2. rewrite filter_map_fst.
  rewrite mapM_getitem_sub; [| exact HndB | intros kv Hkv; now apply filter_In in Hkv].
  unfold Heading_init. do 2 f_equal.
  set (new := filter (fun kv => negb (mem (fst kv) (names A))) (attributes B)).
  assert (Hitems :
    map (fun q => (name q, q)) (values A ++ map snd new)%list
    = (attributes A ++ new)%list).
  { unfold values. rewrite map_app, !map_map. f_equal.
    - rewrite <- (map_id (attributes A)) at 2. apply map_ext_in.
      intros [k v] Hkv. rewrite Forall_forall in HkeyA.
      specialize (HkeyA _ Hkv). simpl in *. now rewrite HkeyA.
    - rewrite <- (map_id new) at 2. apply map_ext_in.
      intros [k v] Hkv. apply filter_In in Hkv. rewrite Forall_forall in HkeyB.
      specialize (HkeyB _ (proj1 Hkv)). simpl in *. now rewrite HkeyB. }
  rewrite Hitems. apply od_of_items_nodup.
  rewrite map_app. apply NoDup_app.
  - exact HndA.
  - unfold new.
    rewrite <- (filter_map_fst (fun n => negb (mem n (names A)))).
    apply NoDup_filter. exact HndB.
  - intros k HkA HkB. unfold new in HkB.
    rewrite <- (filter_map_fst (fun n => negb (mem n (names A)))) in HkB.
    apply filter_In in HkB. destruct HkB as [_ HkB].
    apply negb_true_iff, mem_not_In in HkB. contradiction.
Qed.

Lemma od_get_app_l (k : string) (d d' : OrderedDict) :
  In k (map fst d) -> od_get k (d ++ d')%list = od_get k d.
Proof.
  induction d as [| [k0 v0] d IH]; simpl; intros Hin; [contradiction |].
  destruct (String.eqb_spec k0 k) as [-> | Hne]; [reflexivity |].
  destruct Hin as [Heq | Hin]; [contradiction | now apply IH].
Qed.

(** C7: [join A B] never fails; on headings it yields the attributes of [A],
    unchanged and in the order of [A], followed by the attributes of [B]
    whose names [A] does not have, in the order of [B]; a name shared by
    [A] and [B] occurs once in the result, with the descriptor it has in
    [A]. *)
Theorem C7_join (A B : Heading) :
  (exists h, join A B = Ret h)
  /\
  (wf_heading A -> wf_heading B ->
   exists h,
     join A B = Ret h /\
     attributes h
     = (attributes A
        ++ filter (fun kv => negb (mem (fst kv) (names A))) (attributes B))%list /\
     forall x, In x (names A) -> In x (names B) ->
       count_occ string_dec (names h) x = 1 /\
       od_get x (attributes h) = od_get x (attributes A)).
Proof.
  split.
  - unfold join.
    destruct (mapM_getitem_defined B
                (filter (fun n => negb (mem n (names A))) (names B)))
      as [vs Hvs].
    + intros n Hn. now apply filter_In in Hn.
    + rewrite Hvs. eexists. reflexivity.
  - intros HA HB. eexists. split; [now apply join_attributes |].
    cbn [attributes]. split; [reflexivity |].
    intros x HxA HxB. split.
    + unfold names at 1. cbn [attributes].
      rewrite map_app, count_occ_app.
      rewrite <- (filter_map_fst (fun n => negb (mem n (names A)))).
      assert (H1 : count_occ string_dec (map fst (attributes A)) x = 1).
      { apply NoDup_count_occ'; [exact (proj1 HA) | exact HxA]. }
      assert (H0 : count_occ string_dec
                     (filter (fun n => negb (mem n (names A)))
                             (map fst (attributes B))) x = 0).
      { apply count_occ_not_In. intros H. apply filter_In in H.
        destruct H as [_ H]. apply negb_true_iff, mem_not_In in H.
        contradiction. }
      rewrite H1, H0. reflexivity.
    + now apply od_get_app_l.
Qed.

Lemma C7_join_witness :
  exists h,
    join Sample.A Sample.B = Ret h /\
    attributes h
    = (attributes Sample.A
       ++ [("b", Sample.attr "b" "smallint(6)" true "b of B" int16)])%list /\
    forall x, In x (names Sample.A) -> In x (names Sample.B) ->
      count_occ string_dec (names h) x = 1 /\
      od_get x (attributes h) = od_get x (attributes Sample.A).
Proof.
  exact (proj2 (C7_join Sample.A Sample.B) wf_Sample_A wf_Sample_B).
Defined.

(** ** Introspection: the dtype of a column *)

Lemma is_space_not_letter (c : ascii) (r p : string) :
  prefix p (String c r) = true -> p <> EmptyString ->
  In p (integer_pattern ++ float_pattern)%list -> is_space c = false.
Proof.
  intros Hp Hne Hin.
  destruct p as [| c0 p]; [congruence |].
  simpl in Hp. destruct (ascii_dec c0 c) as [-> | Hc]; [| discriminate].
  simpl in Hin.
  repeat (destruct Hin as [Heq | Hin];
          [inversion Heq; subst; reflexivity |]).
  contradiction.
Qed.

(** The probe for the unsigned marker is anchored at the first character,
    which is a letter whenever the type is an integer or a float: the marker
    is never seen. *)
Lemma is_unsigned_never (ty : string) :
  is_integer ty || is_float ty = true -> is_unsigned ty = false.
Proof.
  intros H.
  assert (Hex : exists p, In p (integer_pattern ++ float_pattern)%list
                          /\ prefix p ty = true).
  { apply orb_true_iff in H. unfold is_integer, is_float, re_match_alt in H.
    destruct H as [H | H]; apply existsb_exists in H;
      destruct H as [p [Hp Hpre]]; exists p; split; try assumption;
      apply in_or_app; [now left | now right]. }
  destruct Hex as [p [Hin Hpre]].
  unfold is_unsigned, re_match_space_unsigned.
  destruct ty as [| c r].
  - simpl in Hin.
    repeat (destruct Hin as [<- | Hin]; [discriminate Hpre |]). contradiction.
  - rewrite (is_space_not_letter c r p Hpre); [reflexivity | | exact Hin].
    intros ->. simpl in Hin. intuition discriminate.
Qed.

(** What the table holds for a type that is not marked unsigned. *)
Lemma numeric_types_signed (t : string) (d : Dtype) :
  numeric_types_get t false numeric_types = Some d ->
  In d [float32; int8; int16; int32; int64].
Proof.
  unfold numeric_types. cbn [numeric_types_get Bool.eqb].
  repeat (match goal with
          | |- context [String.eqb ?a t] => destruct (String.eqb a t)
          end; cbn [andb];
          [intros H; inversion H; simpl; tauto |]).
  discriminate.
Qed.

(** C1, evaluated: a non-nullable [int(10) unsigned] column gets the signed
    [int32], and a [double] column gets [float32]; no column ever gets an
    unsigned dtype or [float64]. *)
Theorem C1_unsigned_and_double_columns :
  (exists h a,
     init_from_database "db" "t" true [Sample.col "n" "int(10) unsigned" "NO"]
     = Ret h /\
     od_get "n" (attributes h) = Some a /\ nullable a = false /\
     dtype a = int32)
  /\
  (exists h a,
     init_from_database "db" "t" true [Sample.col "d" "double" "NO"] = Ret h /\
     od_get "d" (attributes h) = Some a /\ dtype a = float32)
  /\
  (forall ty nullable d,
     resolve_dtype ty nullable = Ret d ->
     ~ In d [uint8; uint16; uint32; uint64; float64]).
Proof.
  split; [| split].
  - eexists. eexists. repeat split; reflexivity.
  - eexists. eexists. repeat split; reflexivity.
  - intros ty nl d. unfold resolve_dtype.
    destruct (is_numeric ty); [| intros H; inversion H; simpl; intuition discriminate].
    destruct ((is_integer ty && negb nl) || is_float ty) eqn:Hc;
      [| intros H; inversion H; simpl; intuition discriminate].
    rewrite is_unsigned_never.
    + destruct (numeric_types_get _ false numeric_types) as [d' |] eqn:Hget;
        [| discriminate].
      intros H. inversion H; subst d'. clear H.
      apply numeric_types_signed in Hget. simpl in *. intuition congruence.
    + apply orb_true_iff in Hc. apply orb_true_iff.
      destruct Hc as [Hc | Hc]; [left | now right].
      now apply andb_true_iff in Hc.
Qed.

(** ** Reasoning about computations *)

Lemma bind_inv {W A B : Type} (m : M W A) (f : A -> M W B) (w w' : W)
  (r : Res B) :
  bind m f w = (r, w') ->
  (exists a wm, m w = (Ret a, wm) /\ f a wm = (r, w')) \/
  (exists e, m w = (Raise e, w') /\ r = Raise e).
Proof.
  unfold bind. destruct (m w) as [[a | e] wm]; intros H.
  - left. now exists a, wm.
  - right. inversion H; subst. now exists e.
Qed.

Lemma try_except_else_inv {W A B : Type} (m : M W A) (handles : Exn -> bool)
  (handler : Exn -> M W B) (continue : A -> M W B) (w w' : W) (r : Res B) :
  try_except_else m handles handler continue w = (r, w') ->
  (exists a wm, m w = (Ret a, wm) /\ continue a wm = (r, w')) \/
  (exists e wm, m w = (Raise e, wm) /\ handles e = true /\ handler e wm = (r, w')) \/
  (exists e, m w = (Raise e, w') /\ handles e = false /\ r = Raise e).
Proof.
  unfold try_except_else. destruct (m w) as [[a | e] wm]; intros H.
  - left. now exists a, wm.
  - destruct (handles e) eqn:He.
    + right; left. now exists e, wm.
    + right; right. inversion H; subst. now exists e.
Qed.

(** Decompose a hypothesis that a sequence of steps ended in a given way. *)
Ltac step_inv H :=
  let a := fresh "a" in
  let wm := fresh "wm" in
  let e := fresh "e" in
  let H1 := fresh "Hrun" in
  let H2 := fresh "Hrest" in
  let He := fresh "Hcaught" in
  first
    [ apply bind_inv in H;
      destruct H as [[a [wm [H1 H2]]] | [e [H1 H2]]]
    | apply try_except_else_inv in H;
      destruct H as [[a [wm [H1 H2]]] | [[e [wm [H1 [He H2]]]] | [e [H1 [He H2]]]]] ].

(** The same with the names chosen by the caller: the value (or the
    exception caught) [a], the state [wm] in between, the step [H1] that
    ran first and what remains [H2]. *)
Tactic Notation "step" hyp(H) "as" ident(a) ident(wm) ident(H1) ident(H2) :=
  first
    [ apply bind_inv in H;
      destruct H as [[a [wm [H1 H2]]] | [a [H1 H2]]]
    | apply try_except_else_inv in H;
      destruct H as [[a [wm [H1 H2]]] | [[a [wm [H1 [_ H2]]]] | [a [H1 [_ H2]]]]] ].

Section ConnectionProperties.

Context {Server Key Restrictions Relation : Type}.
Variable env : Environment Server Key Restrictions Relation.

Lemma extern_run {A : Type} (c : Call Key) (op : Ext Server A) (w : World Server Key) :
  extern c op w
  = (fst (op (server w)),
     {| _in_transaction := _in_transaction w;
        server := snd (op (server w));
        trace := (trace w ++ [mkEvent c (outcome_of (fst (op (server w))))])%list |}).
Proof. unfold extern. now destruct (op (server w)). Qed.

Lemma extern_flag {A : Type} (c : Call Key) (op : Ext Server A) (w w' : World Server Key)
  (r : Res A) :
  extern c op w = (r, w') -> _in_transaction w' = _in_transaction w.
Proof. rewrite extern_run. intros H. now inversion H. Qed.

(** [query] never touches the flag. *)
Lemma query_flag (q : string) (w w' : World Server Key) (r : Res unit) :
  query env q w = (r, w') -> _in_transaction w' = _in_transaction w.
Proof.
  unfold query, try_except. intros H. step_inv H.
  - inversion Hrest; subst. eapply extern_flag; eauto.
  - apply extern_flag in Hrun.
    destruct (contains "MySQL server has gone away" (exn_str e) && reconnect env).
    + step_inv Hrest.
      * apply extern_flag in Hrun0. unfold connect in Hrest0.
        apply extern_flag in Hrest0. congruence.
      * apply extern_flag in Hrun0. congruence.
    + inversion Hrest; subst. exact Hrun.
  - eapply extern_flag; eauto.
Qed.

(** C9: reading [in_transaction] yields true exactly when the flag is set
    and the liveness probe, made at that moment, answers true; when the
    flag is set the answer is the one of the probe, and a connection whose
    probe does not answer true is not reported as in transaction. *)
Theorem C9_in_transaction_needs_live_connection (w : World Server Key) :
  (forall w', in_transaction env w = (Ret true, w') ->
     _in_transaction w = true /\ fst (conn_ping env (server w)) = Ret true)
  /\
  (_in_transaction w = true ->
     fst (in_transaction env w) = fst (conn_ping env (server w)))
  /\
  (fst (conn_ping env (server w)) <> Ret true ->
     fst (in_transaction env w) <> Ret true).
Proof.
  assert (Hrun : forall flag, _in_transaction w = flag ->
            fst (in_transaction env w)
            = if flag then fst (conn_ping env (server w)) else Ret false).
  { intros flag Hflag. unfold in_transaction, get_in_transaction, bind.
    rewrite Hflag. destruct flag.
    - unfold is_connected. rewrite extern_run.
      destruct (fst (conn_ping env (server w))) as [b | e]; reflexivity.
    - reflexivity. }
  split; [| split].
  - intros w' H. pose proof (Hrun _ eq_refl) as Hr. rewrite H in Hr.
    simpl in Hr. destruct (_in_transaction w); [now split | discriminate].
  - intros Hflag. now rewrite (Hrun true Hflag).
  - intros Hping H. rewrite (Hrun _ eq_refl) in H.
    destruct (_in_transaction w); [contradiction | discriminate].
Qed.

(** C3 as the code has it: [cancel_transaction] and [commit_transaction]
    clear the flag when they return; when the statement raises, the call
    raises and the flag is left as it was. *)
Theorem C3_flag_cleared_on_return (w w' : World Server Key) (r : Res unit) :
  cancel_transaction env w = (r, w') \/ commit_transaction env w = (r, w') ->
  match r with
  | Ret _ => _in_transaction w' = false
  | Raise _ => _in_transaction w' = _in_transaction w
  end.
Proof.
  unfold cancel_transaction, commit_transaction.
  intros [H | H]; step_inv H.
  - inversion Hrest; subst. reflexivity.
  - subst r. eapply query_flag; eauto.
  - inversion Hrest; subst. reflexivity.
  - subst r. eapply query_flag; eauto.
Qed.

End ConnectionProperties.

Lemma C9_in_transaction_needs_live_connection_witness :
  _in_transaction Sample.busy = true /\
  fst (conn_ping (Sample.env true Sample.ok []) (server Sample.busy)) = Ret true.
Proof.
  apply (proj1 (C9_in_transaction_needs_live_connection
                  (Sample.env true Sample.ok []) Sample.busy)
           {| _in_transaction := true; server := tt;
              trace := [mkEvent c_ping Returned] |}).
  reflexivity.
Defined.

Lemma C3_flag_cleared_on_return_witness :
  _in_transaction (snd (cancel_transaction (Sample.env true Sample.ok []) Sample.busy))
  = false.
Proof.
  apply (C3_flag_cleared_on_return (Sample.env true Sample.ok []) Sample.busy
           (snd (cancel_transaction (Sample.env true Sample.ok []) Sample.busy))
           (Ret tt)).
  left. reflexivity.
Defined.

(** C3 as stated fails: when ROLLBACK (or COMMIT) raises, the call raises
    and the flag still says that a transaction is open. *)
Lemma C3_flag_survives_failed_statement :
  fst (cancel_transaction
         (Sample.env true (Sample.failing "ROLLBACK" Sample.gone) []) Sample.busy)
  = Raise Sample.gone /\
  ~ _in_transaction
      (snd (cancel_transaction
              (Sample.env true (Sample.failing "ROLLBACK" Sample.gone) [])
              Sample.busy)) = false /\
  fst (commit_transaction
         (Sample.env true (Sample.failing "COMMIT" Sample.gone) []) Sample.busy)
  = Raise Sample.gone /\
  ~ _in_transaction
      (snd (commit_transaction
              (Sample.env true (Sample.failing "COMMIT" Sample.gone) [])
              Sample.busy)) = false.
Proof.
  repeat split; try reflexivity; discriminate.
Qed.

(** ** populate *)

Section PopulateProperties.

Context {Server Key Restrictions Relation : Type}.
Variable env : Environment Server Key Restrictions Relation.
Variables suppress_errors reserve_jobs : bool.

(** C5: called while the connection has an open transaction (the flag is
    set and the connection is live), [populate] raises at once; the only
    call it makes is the liveness probe: no reservation, no transaction
    statement, no call of the computation hook. *)
Theorem C5_populate_refuses_open_transaction (restrictions : Restrictions)
  (order : string) (w : World Server Key) (s' : Server) :
  _in_transaction w = true ->
  conn_ping env (server w) = (Ret true, s') ->
  populate env suppress_errors reserve_jobs restrictions order w
  = (Raise (mkExn DataJointError "Populate cannot be called during a transaction."),
     {| _in_transaction := true;
        server := s';
        trace := (trace w ++ [mkEvent c_ping Returned])%list |}).
Proof.
  intros Hflag Hping.
  unfold populate, in_transaction, get_in_transaction, is_connected, bind.
  rewrite Hflag, extern_run, Hping. reflexivity.
Qed.

(** The first call of [query] is the execution of its statement. *)
Lemma query_trace (q : string) (w w' : World Server Key) (r : Res unit) :
  query env q w = (r, w') ->
  exists o tl, trace w' = (trace w ++ mkEvent (c_execute q) o :: tl)%list.
Proof.
  unfold query, try_except. intros H. step_inv H.
  - inversion Hrest; subst. rewrite extern_run in Hrun. inversion Hrun.
    eexists. exists []. reflexivity.
  - rewrite extern_run in Hrun. inversion Hrun as [[Hr Hw]]. clear Hrun.
    destruct (contains "MySQL server has gone away" (exn_str e) && reconnect env).
    + step_inv Hrest.
      * unfold connect in Hrest0. rewrite extern_run in Hrun, Hrest0.
        inversion Hrun; subst. inversion Hrest0; subst. cbn [trace].
        rewrite <- !app_assoc. eexists. eexists. reflexivity.
      * rewrite extern_run in Hrun. inversion Hrun.
    + inversion Hrest; subst. cbn [trace]. eexists. exists []. reflexivity.
  - rewrite extern_run in Hrun. inversion Hrun.
    eexists. exists []. reflexivity.
Qed.

Lemma cancel_transaction_trace (w w' : World Server Key) (r : Res unit) :
  cancel_transaction env w = (r, w') ->
  exists o tl, trace w' = (trace w ++ mkEvent (c_execute "ROLLBACK") o :: tl)%list.
Proof.
  unfold cancel_transaction. intros H. step_inv H.
  - inversion Hrest; subst. cbn [trace]. eapply query_trace; eauto.
  - eapply query_trace; eauto.
Qed.

(** C4: when the computation hook fails on a key, the transaction is rolled
    back first, a rollback that raises [OperationalError] being swallowed;
    when reserving, the job is then marked errored with the message of the
    failure; then, errors not being suppressed, the failure propagates and
    no later key is processed, and errors being suppressed, the pair of the
    key and the failure is appended to the error list and the loop goes on
    with the next key. *)
Theorem C4_hook_failure (key : Key) (rest : list Key)
  (error_list : ErrorList Key) (error : Exn)
  (w wa wb wc w1 w2 w3 : World Server Key) (rollback : Res unit) :
  (* the key reaches the computation hook, which raises [error] *)
  (if negb reserve_jobs then ret true
   else extern (c_reserve key) (jobs_reserve env key)) w = (Ret true, wa) ->
  start_transaction env wa = (Ret tt, wb) ->
  extern (c_contains key) (target_contains env key) wb = (Ret false, wc) ->
  extern (c_make_tuples key) (_make_tuples env key) wc = (Raise error, w1) ->
  (* the rollback returns, or fails as it does on a dead connection *)
  cancel_transaction env w1 = (rollback, w2) ->
  (rollback = Ret tt \/
   exists e, rollback = Raise e /\ exn_class e = OperationalError) ->
  (* the job store takes the notification *)
  when_reserving reserve_jobs
    (extern (c_error key (exn_str error)) (jobs_error env key (exn_str error))) w2
  = (Ret tt, w3) ->
  (exists o tl,
     trace w2 = (trace w1 ++ mkEvent (c_execute "ROLLBACK") o :: tl)%list)
  /\
  trace w3
  = (trace w2 ++ if reserve_jobs
                 then [mkEvent (c_error key (exn_str error)) Returned]
                 else [])%list
  /\
  (suppress_errors = false ->
   populate_loop env suppress_errors reserve_jobs (key :: rest) error_list w
   = (Raise error, w3))
  /\
  (suppress_errors = true ->
   forall l, error_list = Some l ->
     populate_loop env suppress_errors reserve_jobs (key :: rest) error_list w
     = populate_loop env suppress_errors reserve_jobs rest
         (Some (l ++ [(key, error)])%list) w3).
Proof.
  intros Hgo Hstart Hin Hhook Hrb Hclass Herr.
  assert (Hhandler :
    (try_except (cancel_transaction env) is_OperationalError (fun _ => ret tt)) w1
    = (Ret tt, w2)).
  { unfold try_except, try_except_else. rewrite Hrb.
    destruct Hclass as [-> | [e [-> He]]]; [reflexivity |].
    unfold is_OperationalError. rewrite He. reflexivity. }
  assert (Hkey : populate_key env suppress_errors reserve_jobs key error_list w
                 = (if negb suppress_errors then raise error
                    else append_error error_list key error) w3).
  { unfold populate_key, bind at 1. rewrite Hgo.
    unfold bind at 1. rewrite Hstart.
    unfold bind at 1. rewrite Hin.
    unfold make, try_except_else. rewrite Hhook. cbn [is_Exception].
    unfold on_failure, bind at 1. rewrite Hhandler.
    unfold bind at 1. rewrite Herr. reflexivity. }
  split; [eapply cancel_transaction_trace; eauto |].
  split.
  { unfold when_reserving in Herr. destruct reserve_jobs.
    - rewrite extern_run in Herr. inversion Herr as [[Hr Hw]].
      cbn [trace]. rewrite Hr. reflexivity.
    - inversion Herr; subst. now rewrite app_nil_r. }
  split.
  - intros Hs. cbn [populate_loop]. unfold bind. rewrite Hkey, Hs. reflexivity.
  - intros Hs l ->. cbn [populate_loop]. unfold bind at 1.
    rewrite Hkey, Hs. reflexivity.
Qed.

(** *** The error list follows the failures of the hook *)

Lemma failures_app (t1 t2 : list (Event Key)) :
  failures (t1 ++ t2) = (failures t1 ++ failures t2)%list.
Proof.
  induction t1 as [| [c o] t1 IH]; [reflexivity |].
  destruct c; simpl; try exact IH. destruct o; simpl; [exact IH | now rewrite IH].
Qed.

Lemma quiet_ret {A : Type} (a : A) : quiet (Server := Server) (Key := Key) (ret a).
Proof.
  intros w r w' H. inversion H; subst. exists []. now rewrite app_nil_r.
Qed.

Lemma quiet_raise {A : Type} (e : Exn) :
  quiet (Server := Server) (Key := Key) (A := A) (raise e).
Proof.
  intros w r w' H. inversion H; subst. exists []. now rewrite app_nil_r.
Qed.

Lemma quiet_set (b : bool) :
  quiet (Server := Server) (Key := Key) (set_in_transaction b).
Proof.
  intros w r w' H. inversion H; subst. exists []. cbn. now rewrite app_nil_r.
Qed.

Lemma quiet_get : quiet (Server := Server) (Key := Key) get_in_transaction.
Proof.
  intros w r w' H. inversion H; subst. exists []. now rewrite app_nil_r.
Qed.

Lemma quiet_extern {A : Type} (c : Call Key) (op : Ext Server A) :
  is_hook_call c = false -> quiet (extern c op).
Proof.
  intros Hc w r w' H. rewrite extern_run in H. inversion H; subst.
  eexists. split; [reflexivity |]. destruct c; try reflexivity. discriminate.
Qed.

Lemma quiet_bind {A B : Type} (m : M (World Server Key) A)
  (f : A -> M (World Server Key) B) :
  quiet m -> (forall a, quiet (f a)) -> quiet (bind m f).
Proof.
  intros Hm Hf w r w' H. step_inv H.
  - destruct (Hm _ _ _ Hrun) as [t1 [E1 F1]].
    destruct (Hf _ _ _ _ Hrest) as [t2 [E2 F2]].
    exists (t1 ++ t2)%list. rewrite E2, E1, app_assoc, failures_app, F1, F2.
    now split.
  - exact (Hm _ _ _ Hrun).
Qed.

Lemma quiet_try_except_else {A B : Type} (m : M (World Server Key) A)
  (handles : Exn -> bool) (handler : Exn -> M (World Server Key) B)
  (continue : A -> M (World Server Key) B) :
  quiet m -> (forall e, quiet (handler e)) -> (forall a, quiet (continue a)) ->
  quiet (try_except_else m handles handler continue).
Proof.
  intros Hm Hh Hc w r w' H. step_inv H.
  - destruct (Hm _ _ _ Hrun) as [t1 [E1 F1]].
    destruct (Hc _ _ _ _ Hrest) as [t2 [E2 F2]].
    exists (t1 ++ t2)%list. rewrite E2, E1, app_assoc, failures_app, F1, F2.
    now split.
  - destruct (Hm _ _ _ Hrun) as [t1 [E1 F1]].
    destruct (Hh _ _ _ _ Hrest) as [t2 [E2 F2]].
    exists (t1 ++ t2)%list. rewrite E2, E1, app_assoc, failures_app, F1, F2.
    now split.
  - exact (Hm _ _ _ Hrun).
Qed.

Lemma quiet_if {A : Type} (b : bool) (m1 m2 : M (World Server Key) A) :
  quiet m1 -> quiet m2 -> quiet (if b then m1 else m2).
Proof. now destruct b. Qed.

Create HintDb quiet.
#[local] Hint Resolve quiet_ret quiet_raise quiet_set quiet_get quiet_bind
  quiet_try_except_else quiet_if : quiet.
#[local] Hint Extern 1 (quiet (extern _ _)) =>
  apply quiet_extern; reflexivity : quiet.

Lemma quiet_query (q : string) : quiet (query env q).
Proof.
  unfold query, try_except, connect.
  apply quiet_try_except_else; auto with quiet.
Qed.

Lemma quiet_in_transaction : quiet (in_transaction env).
Proof. unfold in_transaction, is_connected. auto 8 with quiet. Qed.

#[local] Hint Resolve quiet_query quiet_in_transaction : quiet.

Lemma quiet_start_transaction : quiet (start_transaction env).
Proof. unfold start_transaction. auto 8 with quiet. Qed.

Lemma quiet_cancel_transaction : quiet (cancel_transaction env).
Proof. unfold cancel_transaction. auto with quiet. Qed.

Lemma quiet_commit_transaction : quiet (commit_transaction env).
Proof. unfold commit_transaction. auto with quiet. Qed.

Lemma quiet_when_reserving (m : M (World Server Key) unit) :
  quiet m -> quiet (when_reserving reserve_jobs m).
Proof. unfold when_reserving. auto with quiet. Qed.

#[local] Hint Resolve quiet_start_transaction quiet_cancel_transaction
  quiet_commit_transaction quiet_when_reserving : quiet.

Lemma quiet_try_except {A : Type} (m : M (World Server Key) A)
  (handles : Exn -> bool) (handler : Exn -> M (World Server Key) A) :
  quiet m -> (forall e, quiet (handler e)) -> quiet (try_except m handles handler).
Proof. unfold try_except. auto with quiet. Qed.

#[local] Hint Resolve quiet_try_except : quiet.

(** What a quiet step that has run added to the trace. *)
Ltac quiet_fact H :=
  let t := fresh "t" in
  let E := fresh "E" in
  let F := fresh "F" in
  let Hq := fresh "Hq" in
  match type of H with
  | ?m _ = (_, _) =>
      assert (Hq : quiet m) by (auto 8 with quiet);
      destruct (Hq _ _ _ H) as [t [E F]]; clear Hq
  end.

(** Put the pieces of a trace together. *)
Ltac chain :=
  split;
  [ repeat match goal with
           | E : trace _ = _ |- _ => rewrite E; clear E
           end;
    cbn [trace]; repeat rewrite <- app_assoc; reflexivity
  | repeat rewrite failures_app;
    repeat match goal with
           | F : failures _ = [] |- _ => rewrite F; clear F
           end;
    cbn [failures app]; repeat rewrite app_nil_r ].

Lemma option_map_app_nil (el : ErrorList Key) :
  option_map (fun l => (l ++ [])%list) el = el.
Proof. destruct el; simpl; [now rewrite app_nil_r | reflexivity]. Qed.

(** One key: when the body returns, the error list has grown by the failures
    of the hook that the trace shows. *)
Lemma populate_key_errors (key : Key) (error_list error_list' : ErrorList Key)
  (w w' : World Server Key) :
  populate_key env suppress_errors reserve_jobs key error_list w
  = (Ret error_list', w') ->
  exists tr, trace w' = (trace w ++ tr)%list /\
    error_list' = option_map (fun l => (l ++ failures tr)%list) error_list.
Proof.
  unfold populate_key. intros H.
  step H as go w1 Hgo H; [| discriminate]. quiet_fact Hgo.
  destruct go.
  - step H as u w2 Hstart H; [| discriminate]. quiet_fact Hstart.
    step H as present w3 Hin H; [| discriminate]. quiet_fact Hin.
    destruct present.
    + (* already populated *)
      step H as u1 w4 Hcancel H; [| discriminate]. quiet_fact Hcancel.
      step H as u2 w5 Hjob H; [| discriminate]. quiet_fact Hjob.
      inversion H; subst.
      exists (t ++ t0 ++ t1 ++ t2 ++ t3)%list. chain.
      now rewrite option_map_app_nil.
    + unfold make in H. step H as x w4 Hhook H.
      * (* the hook returned *)
        rewrite extern_run in Hhook. inversion Hhook as [[Hr Hw]]. clear Hhook.
        unfold on_success in H.
        step H as u1 w5 Hcommit H; [| discriminate]. quiet_fact Hcommit.
        step H as u2 w6 Hjob H; [| discriminate]. quiet_fact Hjob.
        inversion H; subst.
        exists (t ++ t0 ++ t1
                ++ [mkEvent (c_make_tuples key) Returned] ++ t2 ++ t3)%list.
        rewrite Hr in *. chain. now rewrite option_map_app_nil.
      * (* the hook raised *)
        rewrite extern_run in Hhook. inversion Hhook as [[Hr Hw]]. clear Hhook.
        unfold on_failure in H.
        step H as u1 w5 Hcancel H; [| discriminate]. quiet_fact Hcancel.
        step H as u2 w6 Hjob H; [| discriminate]. quiet_fact Hjob.
        destruct suppress_errors; cbn [negb] in H; [| discriminate].
        destruct error_list as [l |]; [| discriminate].
        inversion H; subst.
        exists (t ++ t0 ++ t1
                ++ [mkEvent (c_make_tuples key) (Raised x)] ++ t2 ++ t3)%list.
        rewrite Hr in *. chain. reflexivity.
      * discriminate.
  - inversion H; subst. exists t. chain. now rewrite option_map_app_nil.
Qed.

Lemma populate_loop_errors (keys : list Key) :
  forall (error_list error_list' : ErrorList Key) (w w' : World Server Key),
    populate_loop env suppress_errors reserve_jobs keys error_list w
    = (Ret error_list', w') ->
    exists tr, trace w' = (trace w ++ tr)%list /\
      error_list' = option_map (fun l => (l ++ failures tr)%list) error_list.
Proof.
  induction keys as [| key rest IH]; intros el el' w w' H; cbn [populate_loop] in H.
  - inversion H; subst. exists []. split; [now rewrite app_nil_r |].
    simpl. now rewrite option_map_app_nil.
  - step H as el1 w1 Hkey H; [| discriminate].
    apply populate_key_errors in Hkey. destruct Hkey as [t1 [E1 R1]].
    apply IH in H. destruct H as [t2 [E2 R2]].
    exists (t1 ++ t2)%list. split.
    + now rewrite E2, E1, app_assoc.
    + subst. destruct el as [l |]; simpl; [| reflexivity].
      now rewrite failures_app, app_assoc.
Qed.

(** The failures read off a trace are the calls of the hook that raised. *)
Lemma failures_In (tr : list (Event Key)) (k : Key) (e : Exn) :
  In (k, e) (failures tr) <-> In (mkEvent (c_make_tuples k) (Raised e)) tr.
Proof.
  induction tr as [| [c o] tr IH]; [reflexivity |].
  assert (Hskip : forall c' o', (forall k' e', (c', o') <> (c_make_tuples k', Raised e')) ->
            (In (k, e) (failures tr)
             <-> In (mkEvent (c_make_tuples k) (Raised e)) (mkEvent c' o' :: tr))).
  { intros c' o' Hne. rewrite IH. simpl. split; [now right |].
    intros [Heq | Hin]; [| exact Hin].
    inversion Heq; subst. exfalso. now apply (Hne k e). }
  destruct c; try (simpl; apply Hskip; intros; congruence).
  destruct o as [| e0]; [simpl; apply Hskip; intros; congruence |].
  simpl. rewrite IH. split.
  - intros [Heq | Hin]; [left; now inversion Heq | now right].
  - intros [Heq | Hin]; [left; now inversion Heq | now right].
Qed.

Lemma failures_none (tr : list (Event Key)) :
  (forall k e, ~ In (mkEvent (c_make_tuples k) (Raised e)) tr) ->
  failures tr = [].
Proof.
  intros H. destruct (failures tr) as [| [k e] l] eqn:Hf; [reflexivity |].
  exfalso. apply (H k e). apply failures_In. rewrite Hf. now left.
Qed.

(** C2 as the code has it: when [populate] returns, it returns [None] if
    errors were not suppressed, and otherwise the list of the pairs (key,
    error) of the hook calls that failed during the run, in the order in
    which they failed; that list is empty when no call of the hook failed. *)
Theorem C2_populate_result (restrictions : Restrictions) (order : string)
  (w w' : World Server Key) (result : ErrorList Key) :
  populate env suppress_errors reserve_jobs restrictions order w
  = (Ret result, w') ->
  exists tr,
    trace w' = (trace w ++ tr)%list /\
    result = (if suppress_errors then Some (failures tr) else None) /\
    ((forall k e, ~ In (mkEvent (c_make_tuples k) (Raised e)) tr) ->
     result = if suppress_errors then Some [] else None).
Proof.
  unfold populate. intros H.
  step H as b w1 Hguard H; [| discriminate]. quiet_fact Hguard.
  destruct b; [discriminate |].
  destruct (negb (mem order valid_order)); [discriminate |].
  step H as todo w2 Hsource H; [| discriminate]. quiet_fact Hsource.
  destruct (negb (is_RelationalOperand env todo)); [discriminate |].
  step H as todo' w3 Hrestrict H; [| discriminate]. quiet_fact Hrestrict.
  step H as u w4 Hjobs H; [| discriminate]. quiet_fact Hjobs.
  step H as keys w5 Hfetch H; [| discriminate]. quiet_fact Hfetch.
  step H as keys' w6 Horder H; [| discriminate]. quiet_fact Horder.
  apply populate_loop_errors in H. destruct H as [tl [El Rl]].
  assert (Hres : result = if suppress_errors then Some (failures tl) else None).
  { subst result. now destruct suppress_errors. }
  exists (t ++ t0 ++ t1 ++ t2 ++ t3 ++ t4 ++ tl)%list.
  assert (Hf : failures (t ++ t0 ++ t1 ++ t2 ++ t3 ++ t4 ++ tl) = failures tl).
  { repeat rewrite failures_app. rewrite F, F0, F1, F2, F3, F4. reflexivity. }
  split; [| split].
  - rewrite El, E4, E3, E2, E1, E0, E. repeat rewrite <- app_assoc. reflexivity.
  - now rewrite Hf.
  - intros Hnone. apply failures_none in Hnone. rewrite Hf in Hnone.
    now rewrite Hres, Hnone.
Qed.

End PopulateProperties.

Lemma C5_populate_refuses_open_transaction_witness :
  populate (Sample.env true Sample.ok [1; 2]) false true tt "original" Sample.busy
  = (Raise (mkExn DataJointError "Populate cannot be called during a transaction."),
     {| _in_transaction := true; server := tt;
        trace := [mkEvent c_ping Returned] |}).
Proof.
  apply (C5_populate_refuses_open_transaction
           (Sample.env true Sample.ok [1; 2]) false true tt "original"
           Sample.busy tt);
    reflexivity.
Defined.

(** The hook fails on key 1 while jobs are reserved and errors suppressed:
    the loop goes on with key 2 and the pair recorded. *)
Lemma C4_hook_failure_witness :
  populate_loop (Sample.env true Sample.ok [1; 2]) true true [1; 2] (Some [])
    Sample.idle
  = populate_loop (Sample.env true Sample.ok [1; 2]) true true [2]
      (Some [(1, Sample.boom)])
      {| _in_transaction := false; server := tt;
         trace :=
           [mkEvent (c_reserve 1) Returned;
            mkEvent (c_execute "START TRANSACTION WITH CONSISTENT SNAPSHOT") Returned;
            mkEvent (c_contains 1) Returned;
            mkEvent (c_make_tuples 1) (Raised Sample.boom);
            mkEvent (c_execute "ROLLBACK") Returned;
            mkEvent (c_error 1 "boom") Returned] |}.
Proof.
  refine (proj2 (proj2 (proj2
    (C4_hook_failure (Sample.env true Sample.ok [1; 2]) true true 1 [2]
       (Some []) Sample.boom Sample.idle
       _ _ _ _ _ _ (Ret tt)
       eq_refl eq_refl eq_refl eq_refl eq_refl (or_introl eq_refl) eq_refl)))
    eq_refl [] eq_refl).
Defined.

(** The hook fails on key 1 and succeeds on key 2, errors being suppressed. *)
Lemma C2_populate_result_witness :
  exists tr,
    trace (snd (populate (Sample.env true Sample.ok [1; 2]) true false tt
                  "original" Sample.idle))
    = (trace Sample.idle ++ tr)%list /\
    Some [(1, Sample.boom)] = Some (failures tr) /\
    ((forall k e, ~ In (mkEvent (c_make_tuples k) (Raised e)) tr) ->
     Some [(1, Sample.boom)] = Some []).
Proof.
  apply (C2_populate_result (Sample.env true Sample.ok [1; 2]) true false tt
           "original" Sample.idle).
  reflexivity.
Defined.

(** C2 as stated fails: errors not being suppressed, a run in which nothing
    fails returns [None], which is no list. *)
Lemma C2_no_list_without_suppression :
  fst (populate (Sample.env true Sample.ok [2]) false false tt "original"
         Sample.idle) = Ret None /\
  ~ (exists l : list (nat * Exn),
       fst (populate (Sample.env true Sample.ok [2]) false false tt "original"
              Sample.idle) = Ret (Some l) /\ l = []).
Proof.
  split; [reflexivity |]. intros [l [H _]]. discriminate H.
Qed.

(** * Further properties of heading.py *)

(** ** Every heading that is built has unique names *)

Lemma od_set_keys_In (k x : string) (v : Attribute) (d : OrderedDict) :
  In x (map fst (od_set k v d)) <-> x = k \/ In x (map fst d).
Proof.
  induction d as [| [k' v'] d IH]; simpl.
  - intuition.
  - destruct (String.eqb_spec k' k) as [-> | Hne]; simpl.
    + intuition.
    + rewrite IH. intuition.
Qed.

Lemma od_set_In (k : string) (v : Attribute) (d : OrderedDict)
  (kv : string * Attribute) :
  In kv (od_set k v d) -> kv = (k, v) \/ In kv d.
Proof.
  induction d as [| [k' v'] d IH]; simpl.
  - intuition.
  - destruct (String.eqb_spec k' k) as [-> | Hne]; simpl; intuition.
Qed.

Lemma od_set_nodup (k : string) (v : Attribute) (d : OrderedDict) :
  NoDup (map fst d) -> NoDup (map fst (od_set k v d)).
Proof.
  induction d as [| [k' v'] d IH]; simpl; intros Hnd.
  - repeat constructor. intros [].
  - inversion Hnd as [| ? ? Hnotin Hnd']; subst.
    destruct (String.eqb_spec k' k) as [-> | Hne]; simpl.
    + now constructor.
    + constructor; [| now apply IH].
      rewrite od_set_keys_In. intros [-> | H]; contradiction.
Qed.

Lemma od_fold_invariant (P : OrderedDict -> Prop)
  (items : list (string * Attribute)) :
  (forall k v d, In (k, v) items -> P d -> P (od_set k v d)) ->
  forall acc, P acc ->
    P (fold_left (fun d kv => od_set (fst kv) (snd kv) d) items acc).
Proof.
  induction items as [| [k v] items IH]; intros Hstep acc Hacc; simpl.
  - exact Hacc.
  - apply IH.
    + intros k' v' d Hin. apply Hstep. now right.
    + apply Hstep; [now left | exact Hacc].
Qed.

(** The entries of an ordered dict are among the items it was built from. *)
Lemma od_of_items_In (items : list (string * Attribute))
  (kv : string * Attribute) :
  In kv (od_of_items items) -> In kv items.
Proof.
  unfold od_of_items.
  apply (od_fold_invariant (fun d => In kv d -> In kv items)).
  - intros k v d Hin Hd H. apply od_set_In in H.
    destruct H as [-> | H]; [exact Hin | now apply Hd].
  - intros [].
Qed.

Lemma Heading_init_wf (arg : list Attribute) : wf_heading (Heading_init arg).
Proof.
  unfold wf_heading, Heading_init, names. cbn [attributes]. split.
  - unfold od_of_items.
    apply (od_fold_invariant (fun d => NoDup (map fst d))).
    + intros k v d _. apply od_set_nodup.
    + constructor.
  - apply Forall_forall. intros kv Hin. apply od_of_items_In in Hin.
    apply in_map_iff in Hin. destruct Hin as [q [<- _]]. reflexivity.
Qed.

(** X1: whatever builds a heading builds one whose names are unique and
    whose attributes are stored under their own names. *)
Theorem built_headings_are_well_formed (h : Heading) :
  (forall arg, wf_heading (Heading_init arg)) /\
  (forall keep named pk h', project h keep named pk = Ret h' -> wf_heading h') /\
  (forall other h', join h other = Ret h' -> wf_heading h') /\
  wf_heading (make_subquery_heading h) /\
  (forall new_attributes h',
     extend_primary_key h new_attributes = Ret h' -> wf_heading h') /\
  (forall database table_name found columns h',
     init_from_database database table_name found columns = Ret h' ->
     wf_heading h').
Proof.
  split; [exact Heading_init_wf |].
  split.
  { intros keep named pk h'. unfold project.
    destruct (find _ keep); intros H; inversion H. apply Heading_init_wf. }
  split.
  { intros other h'. unfold join.
    destruct (mapM _ _); intros H; inversion H. apply Heading_init_wf. }
  split; [apply Heading_init_wf |].
  split.
  { intros new h'. unfold extend_primary_key.
    destruct (find _ new); intros H; inversion H. apply Heading_init_wf. }
  intros db tn found cols h'. unfold init_from_database.
  destruct (negb found); [discriminate |].
  destruct (mapM _ cols); intros H; inversion H. apply Heading_init_wf.
Qed.

(** ** Operations that rewrite every attribute in place *)

Lemma Heading_init_map (h : Heading) (f : Attribute -> Attribute) :
  wf_heading h -> (forall v, name (f v) = name v) ->
  Heading_init (map f (values h))
  = mkHeading (map (fun kv => (fst kv, f (snd kv))) (attributes h)).
Proof.
  intros [Hnd Hkey] Hname. unfold Heading_init, values. f_equal.
  assert (Hitems :
    map (fun q => (name q, q)) (map f (map snd (attributes h)))
    = map (fun kv => (fst kv, f (snd kv))) (attributes h)).
  { rewrite !map_map. apply map_ext_in. intros kv Hin.
    rewrite Forall_forall in Hkey. now rewrite Hname, (Hkey kv Hin). }
  rewrite Hitems. apply od_of_items_nodup.
  rewrite map_map. cbn [fst]. exact Hnd.
Qed.

Lemma od_get_map (f : string -> Attribute -> Attribute) (k : string)
  (d : OrderedDict) :
  od_get k (map (fun kv => (fst kv, f (fst kv) (snd kv))) d)
  = option_map (f k) (od_get k d).
Proof.
  induction d as [| [k' v'] d IH]; [reflexivity |]. cbn [map fst snd od_get].
  destruct (String.eqb_spec k' k) as [-> | Hne]; [reflexivity | exact IH].
Qed.

Lemma set_in_key_same (v : Attribute) : set_in_key (in_key v) v = v.
Proof. now destruct v. Qed.

(** ** Heading.extend_primary_key *)

Lemma extend_primary_key_attributes (h : Heading) (new : list string) :
  wf_heading h -> (forall a, In a new -> In a (names h)) ->
  extend_primary_key h new = Ret (mkHeading (map (extended new) (attributes h))).
Proof.
  intros Hwf Hall. unfold extend_primary_key.
  rewrite find_missing_none by exact Hall. f_equal.
  rewrite Heading_init_map by (assumption || reflexivity). f_equal.
  apply map_ext_in. intros kv Hin. unfold extended.
  destruct Hwf as [_ Hkey]. rewrite Forall_forall in Hkey.
  now rewrite (Hkey kv Hin).
Qed.

Lemma extended_twice (new : list string) (kv : string * Attribute) :
  extended new (extended new kv) = extended new kv.
Proof.
  destruct kv as [k v]. unfold extended. cbn [fst snd]. f_equal.
  destruct v as [n t b]. unfold set_in_key. cbn [in_key]. f_equal.
  now rewrite <- orb_assoc, orb_diag.
Qed.

Lemma wf_extended (h : Heading) (new : list string) :
  wf_heading h -> wf_heading (mkHeading (map (extended new) (attributes h))).
Proof.
  intros [Hnd Hkey]. split.
  - unfold names. cbn [attributes]. rewrite map_map. exact Hnd.
  - cbn [attributes]. apply Forall_forall. intros kv Hin.
    apply in_map_iff in Hin. destruct Hin as [kv0 [<- Hin0]].
    rewrite Forall_forall in Hkey. exact (Hkey kv0 Hin0).
Qed.

(** X2: [extend_primary_key] fails with the attribute-not-found error when a
    name is not in the heading; otherwise it keeps the names and their
    order, the primary key becomes the old primary key together with the
    new names, every other property of an attribute is kept, and extending
    again by the same names changes nothing. *)
Theorem extend_primary_key_adds_keys (h : Heading) (new : list string) :
  (forall a, In a new -> ~ In a (names h) ->
     exists a', In a' new /\ ~ In a' (names h) /\
       extend_primary_key h new
       = Raise (mkExn DataJointError
                  ("Attribute " ++ BT ++ a' ++ BT ++ " is not found")))
  /\
  (wf_heading h -> (forall a, In a new -> In a (names h)) ->
     exists h',
       extend_primary_key h new = Ret h' /\
       names h' = names h /\
       (forall k v, od_get k (attributes h) = Some v ->
          od_get k (attributes h')
          = Some (set_in_key (in_key v || mem k new) v)) /\
       (forall k, In k (primary_key h') <-> In k (primary_key h) \/ In k new) /\
       extend_primary_key h' new = Ret h').
Proof.
  split.
  - intros a Hin Hnot.
    destruct (find_missing_some h new a Hin Hnot) as [a' [Hf [Hl Hn]]].
    exists a'. repeat split; try assumption.
    unfold extend_primary_key. now rewrite Hf.
  - intros Hwf Hall. eexists. split; [now apply extend_primary_key_attributes |].
    assert (Hnames : names (mkHeading (map (extended new) (attributes h)))
                     = names h).
    { unfold names. cbn [attributes]. rewrite map_map. reflexivity. }
    split; [exact Hnames |]. split; [| split].
    + intros k v Hv. cbn [attributes]. unfold extended.
      rewrite (od_get_map (fun k v => set_in_key (in_key v || mem k new) v)).
      now rewrite Hv.
    + intros k. unfold primary_key. cbn [attributes].
      rewrite !in_map_iff. split.
      * intros [[k' v'] [<- Hin]]. apply filter_In in Hin.
        destruct Hin as [Hin Hkey]. apply in_map_iff in Hin.
        destruct Hin as [[k0 v0] [Heq Hin0]]. unfold extended in Heq.
        inversion Heq; subst. cbn in Hkey. apply orb_true_iff in Hkey.
        destruct Hkey as [Hk | Hk].
        -- left. exists (k', v0). split; [reflexivity |].
           apply filter_In. now split.
        -- right. now apply mem_In.
      * intros Hk.
        assert (Hex : exists v, In (k, v) (attributes h)
                                /\ in_key v || mem k new = true).
        { destruct Hk as [[[k' v'] [<- Hin]] | Hk].
          - apply filter_In in Hin. destruct Hin as [Hin Hkey].
            exists v'. split; [exact Hin |]. cbn in Hkey. now rewrite Hkey.
          - apply Hall in Hk as Hn. unfold names in Hn.
            apply in_map_iff in Hn. destruct Hn as [[k' v'] [<- Hin]].
            exists v'. split; [exact Hin |].
            cbn [fst] in *. apply mem_In in Hk. rewrite Hk. apply orb_true_r. }
        destruct Hex as [v [Hin Hkey]].
        exists (extended new (k, v)). split; [reflexivity |].
        apply filter_In. split; [now apply in_map | exact Hkey].
    + rewrite extend_primary_key_attributes.
      * cbn [attributes]. rewrite map_map. do 2 f_equal.
        apply map_ext. apply extended_twice.
      * now apply wf_extended.
      * intros a Ha. rewrite Hnames. now apply Hall.
Qed.

Lemma extend_primary_key_adds_keys_witness :
  exists h',
    extend_primary_key Sample.A ["a"] = Ret h' /\
    names h' = names Sample.A /\
    (forall k v, od_get k (attributes Sample.A) = Some v ->
       od_get k (attributes h')
       = Some (set_in_key (in_key v || mem k ["a"]) v)) /\
    (forall k, In k (primary_key h') <-> In k (primary_key Sample.A) \/ In k ["a"]) /\
    extend_primary_key h' ["a"] = Ret h'.
Proof.
  apply (proj2 (extend_primary_key_adds_keys Sample.A ["a"]) wf_Sample_A).
  intros a [<- | []]. simpl. tauto.
Defined.

(** ** Heading.as_sql and Heading.make_subquery_heading *)

Lemma mapM_pointwise {A B : Type} (f : A -> Res B) (g : A -> B) (l : list A) :
  (forall x, In x l -> f x = Ret (g x)) -> mapM f l = Ret (map g l).
Proof.
  induction l as [| x l IH]; intros H; simpl; [reflexivity |].
  rewrite (H x) by now left.
  rewrite IH by (intros y Hy; apply H; now right). reflexivity.
Qed.

Lemma expressions_nil (h : Heading) :
  expressions h = [] <->
  (forall kv, In kv (attributes h) -> sql_expression (snd kv) = None).
Proof.
  unfold expressions. split.
  - intros H kv Hin.
    destruct (sql_expression (snd kv)) as [e |] eqn:He; [| reflexivity].
    exfalso. apply map_eq_nil in H.
    assert (Hf : In kv (filter (fun kv => has_expression (snd kv)) (attributes h))).
    { apply filter_In. split; [exact Hin |]. unfold has_expression. now rewrite He. }
    rewrite H in Hf. contradiction.
  - intros H. induction (attributes h) as [| kv d IH]; [reflexivity |].
    cbn [filter]. unfold has_expression at 1. rewrite (H kv) by now left.
    apply IH. intros kv' Hin. apply H. now right.
Qed.

Lemma as_sql_field_of_entry (h : Heading) (kv : string * Attribute) :
  NoDup (names h) -> In kv (attributes h) ->
  as_sql_field h (fst kv)
  = Ret (match sql_expression (snd kv) with
         | None => backticked (fst kv)
         | Some e => e ++ " as " ++ BT ++ fst kv ++ BT
         end).
Proof.
  intros Hnd Hin. destruct kv as [k v]. unfold as_sql_field, getitem.
  cbn [fst snd]. rewrite (od_get_In k v (attributes h) Hnd Hin).
  now destruct (sql_expression v).
Qed.

Lemma as_sql_defined (h : Heading) :
  NoDup (names h) -> exists s, as_sql h = Ret s.
Proof.
  intros Hnd. unfold as_sql, names.
  rewrite (mapM_pointwise _
    (fun k => match od_get k (attributes h) with
              | Some v => match sql_expression v with
                          | None => backticked k
                          | Some e => e ++ " as " ++ BT ++ k ++ BT
                          end
              | None => EmptyString
              end)).
  - eexists. reflexivity.
  - intros k Hk. apply in_map_iff in Hk. destruct Hk as [[k' v] [<- Hin]].
    rewrite (as_sql_field_of_entry h _ Hnd Hin). cbn [fst snd].
    now rewrite (od_get_In k' v (attributes h) Hnd Hin).
Qed.

Lemma as_sql_plain (h : Heading) :
  NoDup (names h) -> expressions h = [] ->
  as_sql h = Ret (String.concat "," (map backticked (names h))).
Proof.
  intros Hnd Hplain. rewrite expressions_nil in Hplain.
  unfold as_sql. rewrite (mapM_pointwise _ backticked); [reflexivity |].
  intros k Hk. apply in_map_iff in Hk. destruct Hk as [kv [<- Hin]].
  rewrite (as_sql_field_of_entry h _ Hnd Hin). now rewrite (Hplain kv Hin).
Qed.

(** X3: [as_sql] never fails on a heading; when no attribute has an
    expression the field list is the back-ticked names, in order, separated
    by commas. *)
Theorem as_sql_of_plain_heading (h : Heading) :
  wf_heading h ->
  (exists s, as_sql h = Ret s) /\
  (expressions h = [] ->
   as_sql h = Ret (String.concat "," (map backticked (names h)))).
Proof.
  intros [Hnd _]. split; [now apply as_sql_defined | now apply as_sql_plain].
Qed.

Lemma as_sql_of_plain_heading_witness :
  (exists s, as_sql Sample.A = Ret s) /\
  (expressions Sample.A = [] ->
   as_sql Sample.A = Ret (String.concat "," (map backticked (names Sample.A)))).
Proof.
  exact (as_sql_of_plain_heading Sample.A wf_Sample_A).
Defined.

(** A rename is written as the source name, an alias and the new name; a
    computed attribute as its expression and its name. *)
Example as_sql_of_derived_heading :
  exists h, Scenario.derived = Ret h /\
    as_sql h
    = Ret (BT ++ "x" ++ BT ++ "," ++ BT ++ "a" ++ BT ++ " as " ++ BT ++ "y" ++ BT
           ++ ",x + 1 as " ++ BT ++ "z" ++ BT).
Proof. eexists. split; reflexivity. Qed.

Lemma primary_key_map (f : Attribute -> Attribute) (d : OrderedDict) :
  (forall v, in_key (f v) = in_key v) ->
  map fst (filter (fun kv => in_key (snd kv))
                  (map (fun kv => (fst kv, f (snd kv))) d))
  = map fst (filter (fun kv => in_key (snd kv)) d).
Proof.
  intros Hf. induction d as [| [k v] d IH]; [reflexivity |].
  cbn [map filter fst snd]. rewrite Hf.
  destruct (in_key v); cbn [map fst]; now rewrite IH.
Qed.

Lemma make_subquery_heading_attributes (h : Heading) :
  wf_heading h ->
  make_subquery_heading h
  = mkHeading (map (fun kv => (fst kv, without_expression (snd kv))) (attributes h)).
Proof.
  intros Hwf. unfold make_subquery_heading.
  now rewrite (Heading_init_map h (fun v => set_name_expression (name v) None v)).
Qed.

(** X4: the heading of a subquery has the names of the heading it is made
    from, in the same order, and the same primary key; each attribute is
    the old one without its expression, so no attribute has an expression
    and the field list is the back-ticked names; making it again changes
    nothing. *)
Theorem make_subquery_heading_strips_expressions (h : Heading) :
  wf_heading h ->
  names (make_subquery_heading h) = names h /\
  primary_key (make_subquery_heading h) = primary_key h /\
  (forall k v, od_get k (attributes h) = Some v ->
     od_get k (attributes (make_subquery_heading h))
     = Some (without_expression v)) /\
  expressions (make_subquery_heading h) = [] /\
  as_sql (make_subquery_heading h)
  = Ret (String.concat "," (map backticked (names h))) /\
  make_subquery_heading (make_subquery_heading h) = make_subquery_heading h.
Proof.
  intros Hwf. rewrite make_subquery_heading_attributes by exact Hwf.
  set (h' := mkHeading (map (fun kv => (fst kv, without_expression (snd kv)))
                            (attributes h))).
  assert (Hnames : names h' = names h).
  { unfold names, h'. cbn [attributes]. now rewrite map_map. }
  assert (Hwf' : wf_heading h').
  { unfold h'. rewrite <- make_subquery_heading_attributes by exact Hwf.
    apply Heading_init_wf. }
  assert (Hplain : expressions h' = []).
  { apply expressions_nil. unfold h'. cbn [attributes]. intros kv Hin.
    apply in_map_iff in Hin. destruct Hin as [kv0 [<- _]]. reflexivity. }
  split; [exact Hnames |]. split; [| split; [| split; [exact Hplain | split]]].
  - unfold primary_key, h'. cbn [attributes]. now apply primary_key_map.
  - intros k v Hv. unfold h'. cbn [attributes].
    rewrite (od_get_map (fun _ v => without_expression v)). now rewrite Hv.
  - rewrite <- Hnames. apply as_sql_plain; [exact (proj1 Hwf') | exact Hplain].
  - rewrite make_subquery_heading_attributes by exact Hwf'.
    unfold h'. cbn [attributes]. rewrite map_map. reflexivity.
Qed.

Lemma make_subquery_heading_strips_expressions_witness :
  exists h,
    Scenario.derived = Ret h /\
    expressions h = ["y"; "z"] /\
    names (make_subquery_heading h) = names h /\
    primary_key (make_subquery_heading h) = primary_key h /\
    (forall k v, od_get k (attributes h) = Some v ->
       od_get k (attributes (make_subquery_heading h))
       = Some (without_expression v)) /\
    expressions (make_subquery_heading h) = [] /\
    as_sql (make_subquery_heading h)
    = Ret (String.concat "," (map backticked (names h))) /\
    make_subquery_heading (make_subquery_heading h) = make_subquery_heading h.
Proof.
  eexists. split; [reflexivity |]. split; [reflexivity |].
  apply make_subquery_heading_strips_expressions. apply Heading_init_wf.
Defined.

(** ** More of Heading.project *)

Lemma od_get_none (k : string) (d : OrderedDict) :
  ~ In k (map fst d) -> od_get k d = None.
Proof.
  induction d as [| [k' v'] d IH]; simpl; intros Hk; [reflexivity |].
  destruct (String.eqb_spec k' k) as [-> | Hne]; [exfalso; apply Hk; now left |].
  apply IH. intros H. apply Hk. now right.
Qed.

Lemma od_get_filter (p : string -> bool) (k : string) (d : OrderedDict) :
  p k = true -> od_get k (filter (fun kv => p (fst kv)) d) = od_get k d.
Proof.
  intros Hp. induction d as [| [k' v'] d IH]; [reflexivity |].
  cbn [filter fst od_get].
  destruct (String.eqb_spec k' k) as [-> | Hne].
  - rewrite Hp. cbn [od_get]. now rewrite String.eqb_refl.
  - destruct (p k'); [| exact IH]. cbn [od_get].
    destruct (String.eqb_spec k' k); [contradiction | exact IH].
Qed.

Lemma od_get_Some_In (k : string) (v : Attribute) (d : OrderedDict) :
  od_get k d = Some v -> In (k, v) d.
Proof.
  induction d as [| [k' v'] d IH]; simpl; [discriminate |].
  destruct (String.eqb_spec k' k) as [-> | Hne].
  - intros H. inversion H. now left.
  - intros H. right. now apply IH.
Qed.

(** X5: an entry of the map of new attributes whose expression is not the
    name of an attribute yields a computed attribute: the defaults, under
    the new name, with the expression as it was given; it is never a key
    attribute, whatever the forced primary key. *)
Theorem project_computed_attribute (h : Heading) (keep : list string)
  (named : list (string * string)) (force_primary_key : option (list string))
  (new_name expression : string) :
  (forall a, In a keep -> In a (names h)) ->
  NoDup (map fst named) ->
  In (new_name, expression) named ->
  ~ In expression (names h) ->
  exists h' a,
    project h keep named force_primary_key = Ret h' /\
    od_get new_name (attributes h') = Some a /\
    a = set_name_expression new_name (Some expression)
          (default_attribute_properties new_name) /\
    in_key a = false.
Proof.
  intros Hall Hnd Hin Hfree.
  destruct (in_split _ _ Hin) as [n1 [n2 Hsplit]].
  assert (Hfresh : ~ In new_name (map fst n2)).
  { rewrite Hsplit, map_app in Hnd. simpl in Hnd.
    apply NoDup_remove_2 in Hnd. intros H. apply Hnd.
    apply in_or_app. now right. }
  clear Hin Hnd. subst named.
  unfold project. rewrite find_missing_none by exact Hall.
  eexists. eexists. split; [reflexivity |].
  unfold Heading_init. cbn [attributes].
  rewrite !map_app. cbn [map].
  rewrite app_assoc, name_named_attribute. cbn [fst].
  rewrite od_get_of_items_last.
  - split; [reflexivity |].
    unfold named_attribute. rewrite (od_get_none _ _ Hfree). split; reflexivity.
  - rewrite !map_map. intros H. apply Hfresh.
    apply in_map_iff in H. destruct H as [it [Hn Hit]].
    rewrite name_named_attribute in Hn. apply in_map_iff. now exists it.
Qed.

Lemma project_computed_attribute_witness :
  exists h' a,
    project Sample.A ["x"] [("y", "a"); ("z", "x + 1")] (Some ["z"; "x + 1"])
    = Ret h' /\
    od_get "z" (attributes h') = Some a /\
    a = set_name_expression "z" (Some "x + 1") (default_attribute_properties "z") /\
    in_key a = false.
Proof.
  apply (project_computed_attribute Sample.A ["x"] [("y", "a"); ("z", "x + 1")]
           (Some ["z"; "x + 1"]) "z" "x + 1").
  - intros a [<- | []]; simpl; tauto.
  - repeat constructor; simpl; intuition discriminate.
  - right. now left.
  - simpl. intuition discriminate.
Defined.

(** X6: in a projection, a kept attribute that no new attribute replaces is
    the attribute of the source, with its key flag set by the forced primary
    key when one is given and untouched otherwise; and the projection has
    no other names than the kept and the new ones. *)
Theorem project_kept_attribute (h : Heading) (keep : list string)
  (named : list (string * string)) (force_primary_key : option (list string)) :
  wf_heading h ->
  (forall a, In a keep -> In a (names h)) ->
  exists h',
    project h keep named force_primary_key = Ret h' /\
    (forall k v, In k keep -> od_get k (attributes h) = Some v ->
       ~ In k (map fst named) ->
       od_get k (attributes h') = Some (force_key force_primary_key k v)) /\
    (forall k, In k (names h') -> In k keep \/ In k (map fst named)).
Proof.
  intros [Hnd Hkey] Hall. unfold project.
  rewrite find_missing_none by exact Hall.
  eexists. split; [reflexivity |].
  unfold Heading_init, names. cbn [attributes].
  rewrite project_items by exact Hkey.
  set (K := map (fun kv => (fst kv, force_key force_primary_key (fst kv) (snd kv)))
                (filter (fun kv => mem (fst kv) keep) (attributes h))).
  set (N := map (fun it => (fst it, named_attribute h force_primary_key it)) named).
  assert (HN : map fst N = map fst named).
  { unfold N. now rewrite map_map. }
  assert (HK : map fst K = filter (fun n => mem n keep) (names h)).
  { unfold K, names. rewrite map_map. cbn [fst].
    now rewrite (filter_map_fst (fun n => mem n keep)). }
  split.
  - intros k v Hk Hv Hnew. unfold od_of_items. rewrite fold_left_app.
    rewrite od_get_fold_other by now rewrite HN.
    fold (od_of_items K). rewrite od_of_items_nodup.
    + unfold K. rewrite (od_get_map (force_key force_primary_key)).
      rewrite (od_get_filter (fun n => mem n keep)) by now apply mem_In.
      now rewrite Hv.
    + rewrite HK. now apply NoDup_filter.
  - intros k Hk. apply in_map_iff in Hk. destruct Hk as [[k' v] [<- Hin]].
    apply od_of_items_In in Hin. apply in_app_or in Hin.
    destruct Hin as [Hin | Hin].
    + left. assert (Hk' : In k' (map fst K)) by (apply in_map_iff; now exists (k', v)).
      rewrite HK in Hk'. apply filter_In in Hk'. now apply mem_In.
    + right. rewrite <- HN. apply in_map_iff. now exists (k', v).
Qed.

Lemma project_kept_attribute_witness :
  exists h',
    project Sample.A ["x"] [("y", "a")] (Some ["y"]) = Ret h' /\
    (forall k v, In k ["x"] -> od_get k (attributes Sample.A) = Some v ->
       ~ In k (map fst [("y", "a")]) ->
       od_get k (attributes h') = Some (force_key (Some ["y"]) k v)) /\
    (forall k, In k (names h') -> In k ["x"] \/ In k (map fst [("y", "a")])).
Proof.
  apply (project_kept_attribute Sample.A ["x"] [("y", "a")] (Some ["y"])
           wf_Sample_A).
  intros a [<- | []]; simpl; tauto.
Defined.

(** ** More of Heading.join *)

Lemma mem_app (x : string) (l1 l2 : list string) :
  mem x (l1 ++ l2)%list = mem x l1 || mem x l2.
Proof. unfold mem. apply existsb_app. Qed.

Lemma mem_filter (p : string -> bool) (x : string) (l : list string) :
  mem x (filter p l) = p x && mem x l.
Proof.
  induction l as [| y l IH]; cbn [filter]; [now rewrite andb_false_r |].
  unfold mem in *. destruct (p y) eqn:Hy; cbn [existsb]; rewrite IH.
  - destruct (String.eqb_spec x y) as [-> | Hne]; [now rewrite Hy |].
    reflexivity.
  - destruct (String.eqb_spec x y) as [-> | Hne]; [now rewrite Hy |].
    reflexivity.
Qed.

Lemma filter_and {B : Type} (p q : B -> bool) (l : list B) :
  filter (fun x => p x && q x) l = filter p (filter q l).
Proof.
  induction l as [| x l IH]; [reflexivity |]. cbn [filter].
  destruct (q x); cbn [filter].
  - rewrite andb_true_r. destruct (p x); now rewrite IH.
  - now rewrite andb_false_r.
Qed.

Lemma filter_none {B : Type} (p : B -> bool) (l : list B) :
  (forall x, In x l -> p x = false) -> filter p l = [].
Proof.
  induction l as [| x l IH]; intros H; [reflexivity |]. cbn [filter].
  rewrite (H x) by now left. apply IH. intros y Hy. apply H. now right.
Qed.

Lemma names_mkHeading (d : OrderedDict) : names (mkHeading d) = map fst d.
Proof. reflexivity. Qed.

Lemma wf_join_attributes (A B : Heading) :
  wf_heading A -> wf_heading B ->
  wf_heading
    (mkHeading
       (attributes A
        ++ filter (fun kv => negb (mem (fst kv) (names A))) (attributes B))%list).
Proof.
  intros HA HB.
  assert (H : join A B = Ret (mkHeading
                (attributes A
                 ++ filter (fun kv => negb (mem (fst kv) (names A)))
                           (attributes B))%list))
    by now apply join_attributes.
  unfold join in H. destruct (mapM _ _) as [vs | e]; [| discriminate].
  injection H as H'. rewrite <- H'. apply Heading_init_wf.
Qed.

(** X7: on headings, joining a heading with itself gives it back, and
    [join] is associative: joining [A] with [B] and then with [C] gives the
    heading that joining [A] with the join of [B] and [C] gives. *)
Theorem join_is_idempotent_and_associative (A B C : Heading) :
  wf_heading A -> wf_heading B -> wf_heading C ->
  join A A = Ret A /\
  exists AB BC R,
    join A B = Ret AB /\ join B C = Ret BC /\
    join AB C = Ret R /\ join A BC = Ret R.
Proof.
  intros HA HB HC. split.
  - rewrite join_attributes by assumption.
    rewrite filter_none.
    + rewrite app_nil_r. now destruct A.
    + intros [k v] Hin. apply negb_false_iff, mem_In. cbn [fst].
      unfold names. apply in_map_iff. now exists (k, v).
  - eexists. eexists. eexists.
    split; [now apply join_attributes |].
    split; [now apply join_attributes |].
    rewrite (join_attributes _ C) by (try apply wf_join_attributes; assumption).
    rewrite (join_attributes A) by (try apply wf_join_attributes; assumption).
    split; [reflexivity |]. do 2 f_equal. cbn [attributes].
    rewrite filter_app, <- app_assoc. do 2 f_equal.
    rewrite <- filter_and. apply filter_ext. intros [k v]. cbn [fst].
    rewrite names_mkHeading, map_app.
    rewrite <- (filter_map_fst (fun n => negb (mem n (names A)))).
    fold (names A). fold (names B).
    rewrite mem_app, mem_filter.
    destruct (mem k (names A)), (mem k (names B)); reflexivity.
Qed.

Lemma join_is_idempotent_and_associative_witness :
  join Sample.A Sample.A = Ret Sample.A /\
  exists AB BC R,
    join Sample.A Sample.B = Ret AB /\ join Sample.B Sample.A = Ret BC /\
    join AB Sample.A = Ret R /\ join Sample.A BC = Ret R.
Proof.
  exact (join_is_idempotent_and_associative Sample.A Sample.B Sample.A
           wf_Sample_A wf_Sample_B wf_Sample_A).
Defined.

(** ** Key and dependent attributes, blobs and the rest *)

Lemma filter_partition_length {B : Type} (p : B -> bool) (l : list B) :
  length (filter p l) + length (filter (fun x => negb (p x)) l) = length l.
Proof.
  induction l as [| x l IH]; [reflexivity |]. cbn [filter].
  destruct (p x); cbn [negb length]; rewrite <- IH;
    [reflexivity | now rewrite Nat.add_succ_r].
Qed.

(** X8: the primary key and the dependent attributes of a heading split its
    names: every name is in exactly one of the two lists, and both keep the
    order of the heading. The blobs and the non-blobs do the same. *)
Theorem names_split_by_key_and_by_blob (h : Heading) :
  wf_heading h ->
  (forall k, In k (names h) <->
             In k (primary_key h) \/ In k (dependent_attributes h)) /\
  (forall k, ~ (In k (primary_key h) /\ In k (dependent_attributes h))) /\
  subseq (primary_key h) (names h) /\
  subseq (dependent_attributes h) (names h) /\
  (forall k, In k (names h) <-> In k (blobs h) \/ In k (non_blobs h)) /\
  (forall k, ~ (In k (blobs h) /\ In k (non_blobs h))) /\
  length (blobs h) + length (non_blobs h) = length (names h).
Proof.
  intros [Hnd _].
  assert (Hsplit : forall p : Attribute -> bool,
    (forall k, In k (names h) <->
       In k (map fst (filter (fun kv => p (snd kv)) (attributes h))) \/
       In k (map fst (filter (fun kv => negb (p (snd kv))) (attributes h)))) /\
    (forall k,
       ~ (In k (map fst (filter (fun kv => p (snd kv)) (attributes h))) /\
          In k (map fst (filter (fun kv => negb (p (snd kv))) (attributes h))))) /\
    subseq (map fst (filter (fun kv => p (snd kv)) (attributes h))) (names h) /\
    subseq (map fst (filter (fun kv => negb (p (snd kv))) (attributes h))) (names h)).
  { intros p. split; [| split; [| split]].
    - intros k. unfold names. rewrite !in_map_iff. split.
      + intros [[k' v] [<- Hin]]. destruct (p v) eqn:Hp.
        * left. exists (k', v). split; [reflexivity |]. apply filter_In. now split.
        * right. exists (k', v). split; [reflexivity |]. apply filter_In.
          split; [exact Hin |]. cbn. now rewrite Hp.
      + intros [[kv [<- Hin]] | [kv [<- Hin]]]; apply filter_In in Hin;
          exists kv; tauto.
    - intros k [H1 H2]. apply in_map_iff in H1, H2.
      destruct H1 as [[k1 v1] [<- H1]]. destruct H2 as [[k2 v2] [Heq H2]].
      cbn [fst] in Heq. subst k2.
      apply filter_In in H1, H2. destruct H1 as [H1 P1], H2 as [H2 P2].
      pose proof (od_get_In _ _ _ Hnd H1) as G1.
      pose proof (od_get_In _ _ _ Hnd H2) as G2.
      rewrite G1 in G2. inversion G2; subst. cbn in P1, P2.
      rewrite P1 in P2. discriminate.
    - unfold names. induction (attributes h) as [| [k v] d IH]; [constructor |].
      cbn [filter map snd fst]. destruct (p v); cbn [map fst];
        [apply subseq_take | apply subseq_skip]; apply IH.
    - unfold names. induction (attributes h) as [| [k v] d IH]; [constructor |].
      cbn [filter map snd fst]. destruct (p v); cbn [negb map fst];
        [apply subseq_skip | apply subseq_take]; apply IH. }
  destruct (Hsplit in_key) as [K1 [K2 [K3 K4]]].
  destruct (Hsplit is_blob) as [B1 [B2 _]].
  repeat split; try assumption; try (now apply K1); try (now apply B1).
  unfold blobs, non_blobs, names. rewrite !length_map.
  apply (filter_partition_length (fun kv => is_blob (snd kv))).
Qed.

Lemma names_split_by_key_and_by_blob_witness :
  (forall k, In k (names Sample.A) <->
             In k (primary_key Sample.A) \/ In k (dependent_attributes Sample.A)) /\
  (forall k, ~ (In k (primary_key Sample.A) /\ In k (dependent_attributes Sample.A))) /\
  subseq (primary_key Sample.A) (names Sample.A) /\
  subseq (dependent_attributes Sample.A) (names Sample.A) /\
  (forall k, In k (names Sample.A) <-> In k (blobs Sample.A) \/ In k (non_blobs Sample.A)) /\
  (forall k, ~ (In k (blobs Sample.A) /\ In k (non_blobs Sample.A))) /\
  length (blobs Sample.A) + length (non_blobs Sample.A) = length (names Sample.A).
Proof.
  exact (names_split_by_key_and_by_blob Sample.A wf_Sample_A).
Defined.

(** ** The classification of column types *)

Lemma prefix_comparable (p q s : string) :
  prefix p s = true -> prefix q s = true ->
  prefix p q = true \/ prefix q p = true.
Proof.
  revert q s. induction p as [| a p IH]; intros q s Hp Hq;
    [left; now destruct q |].
  destruct q as [| b q]; [now right |].
  destruct s as [| c s]; [discriminate |].
  simpl in Hp, Hq |- *.
  destruct (ascii_dec a c) as [-> | Hac]; [| discriminate].
  destruct (ascii_dec b c) as [-> | Hbc]; [| discriminate].
  destruct (ascii_dec c c) as [_ | Hcc]; [| contradiction].
  exact (IH q s Hp Hq).
Qed.

Lemma apart_exclusive (l1 l2 : list string) (s : string) :
  apart l1 l2 = true ->
  re_match_alt l1 s && re_match_alt l2 s = false.
Proof.
  intros Hapart.
  destruct (re_match_alt l1 s) eqn:H1; [| reflexivity].
  destruct (re_match_alt l2 s) eqn:H2; [| reflexivity].
  exfalso. unfold re_match_alt in H1, H2.
  apply existsb_exists in H1, H2.
  destruct H1 as [p [Hp Hps]]. destruct H2 as [q [Hq Hqs]].
  unfold apart in Hapart. rewrite forallb_forall in Hapart.
  specialize (Hapart p Hp). rewrite forallb_forall in Hapart.
  specialize (Hapart q Hq). apply andb_true_iff in Hapart.
  destruct Hapart as [Hpq Hqp]. apply negb_true_iff in Hpq, Hqp.
  destruct (prefix_comparable p q s Hps Hqs); congruence.
Qed.

Lemma supported_one_class (ty : string) :
  supported ty = true ->
  (is_numeric ty, is_string ty, is_blob_type ty) = (true, false, false) \/
  (is_numeric ty, is_string ty, is_blob_type ty) = (false, true, false) \/
  (is_numeric ty, is_string ty, is_blob_type ty) = (false, false, true).
Proof.
  assert (H1 : is_numeric ty && is_string ty = false)
    by (apply apart_exclusive; reflexivity).
  assert (H2 : is_numeric ty && is_blob_type ty = false)
    by (apply apart_exclusive; reflexivity).
  assert (H3 : is_string ty && is_blob_type ty = false)
    by (apply apart_exclusive; reflexivity).
  unfold supported.
  destruct (is_numeric ty), (is_string ty), (is_blob_type ty);
    simpl in *; try discriminate; auto.
Qed.

(** X9: the three patterns that classify a column type exclude each other:
    no type string is numeric and string, numeric and blob, or string and
    blob; so a column that is classified is in exactly one class. *)
Theorem type_classes_exclude_each_other (ty : string) :
  is_numeric ty && is_string ty = false /\
  is_numeric ty && is_blob_type ty = false /\
  is_string ty && is_blob_type ty = false /\
  (supported ty = true ->
   (is_numeric ty, is_string ty, is_blob_type ty) = (true, false, false) \/
   (is_numeric ty, is_string ty, is_blob_type ty) = (false, true, false) \/
   (is_numeric ty, is_string ty, is_blob_type ty) = (false, false, true)).
Proof.
  assert (H1 : is_numeric ty && is_string ty = false)
    by (apply apart_exclusive; reflexivity).
  assert (H2 : is_numeric ty && is_blob_type ty = false)
    by (apply apart_exclusive; reflexivity).
  assert (H3 : is_string ty && is_blob_type ty = false)
    by (apply apart_exclusive; reflexivity).
  repeat split; try assumption. apply supported_one_class.
Qed.

Lemma type_classes_exclude_each_other_witness :
  (is_numeric "timestamp", is_string "timestamp", is_blob_type "timestamp")
  = (true, false, false) \/
  (is_numeric "timestamp", is_string "timestamp", is_blob_type "timestamp")
  = (false, true, false) \/
  (is_numeric "timestamp", is_string "timestamp", is_blob_type "timestamp")
  = (false, false, true).
Proof.
  apply (proj2 (proj2 (proj2 (type_classes_exclude_each_other "timestamp")))).
  reflexivity.
Defined.

(** ** What introspection returns *)

Lemma mapM_Forall2 {A B : Type} (f : A -> Res B) (l : list A) (ys : list B) :
  mapM f l = Ret ys -> Forall2 (fun x y => f x = Ret y) l ys.
Proof.
  revert ys. induction l as [| x l IH]; intros ys H; simpl in H.
  - inversion H. constructor.
  - destruct (f x) as [y | e] eqn:Hx; [| discriminate].
    destruct (mapM f l) as [ys' | e]; [| discriminate].
    inversion H; subst. constructor; [exact Hx | now apply IH].
Qed.

Lemma Forall2_In_r {A B : Type} (R : A -> B -> Prop) (l : list A) (ys : list B)
  (y : B) :
  Forall2 R l ys -> In y ys -> exists x, In x l /\ R x y.
Proof.
  induction 1 as [| x y' l ys Hxy HF IH]; intros Hin; [contradiction |].
  destruct Hin as [-> | Hin].
  - exists x. split; [now left | exact Hxy].
  - destruct (IH Hin) as [x' [Hx' HR]]. exists x'. split; [now right | exact HR].
Qed.

Lemma Forall2_In_l {A B : Type} (R : A -> B -> Prop) (l : list A) (ys : list B)
  (x : A) :
  Forall2 R l ys -> In x l -> exists y, In y ys /\ R x y.
Proof.
  induction 1 as [| x' y l ys Hxy HF IH]; intros Hin; [contradiction |].
  destruct Hin as [-> | Hin].
  - exists y. split; [now left | exact Hxy].
  - destruct (IH Hin) as [y' [Hy' HR]]. exists y'. split; [now right | exact HR].
Qed.

Lemma Forall2_map_eq {A B C : Type} (R : A -> B -> Prop) (f : A -> C)
  (g : B -> C) (l : list A) (ys : list B) :
  Forall2 R l ys -> (forall x y, R x y -> g y = f x) -> map g ys = map f l.
Proof.
  induction 1 as [| x y l ys Hxy HF IH]; intros H; [reflexivity |].
  simpl. now rewrite (H x y Hxy), IH.
Qed.

(** What [init_attribute] returns, field by field. *)
Lemma init_attribute_Ret (database table_name : string) (x : Column)
  (a : Attribute) :
  init_attribute database table_name x = Ret a ->
  supported (col_Type x) = true /\
  name a = col_Field x /\ type a = col_Type x /\
  nullable a = String.eqb (col_Null x) "YES" /\
  in_key a = String.eqb (col_Key x) "PRI" /\
  default a = col_Default x /\ comment a = col_Comment x /\
  numeric a = Some (is_numeric (col_Type x)) /\
  string_ a = Some (is_string (col_Type x)) /\
  is_blob a = is_blob_type (col_Type x) /\
  sql_expression a = None /\
  resolve_dtype (col_Type x) (String.eqb (col_Null x) "YES") = Ret (dtype a).
Proof.
  unfold init_attribute, supported.
  destruct (is_numeric (col_Type x) || is_string (col_Type x)
            || is_blob_type (col_Type x)); cbn [negb]; [| discriminate].
  destruct (resolve_dtype (col_Type x) (String.eqb (col_Null x) "YES")) as [d | e];
    [| discriminate].
  intros H. inversion H; subst. cbn. repeat split; reflexivity.
Qed.

Lemma resolve_dtype_specific (ty : string) (nullable : bool) (d : Dtype) :
  resolve_dtype ty nullable = Ret d -> d <> object ->
  is_numeric ty = true /\
  (is_float ty = true \/ (is_integer ty = true /\ nullable = false)).
Proof.
  unfold resolve_dtype. intros H Hd.
  destruct (is_numeric ty); [| inversion H; congruence].
  split; [reflexivity |].
  destruct (is_float ty); [now left |]. right.
  destruct (is_integer ty), nullable; cbn in H;
    try (inversion H; congruence). now split.
Qed.

(** X10: when introspection returns a heading, the table was found and
    every column type is classified; the heading is grounded (no attribute
    has an expression); each attribute comes from a column, of which it has
    the name, the type, the nullability ([Null] is YES) and the key flag
    ([Key] is PRI), is in exactly one of the classes numeric, string and
    blob, and has a dtype other than [object] only if it is a float, or an
    integer that is not nullable; and when the field names are distinct
    the names of the heading are the field names, in the order of the
    columns. *)
Theorem introspected_heading_is_grounded (database table_name : string)
  (found : bool) (columns : list Column) (h : Heading) :
  init_from_database database table_name found columns = Ret h ->
  found = true /\
  (forall x, In x columns -> supported (col_Type x) = true) /\
  expressions h = [] /\
  (forall k a, In (k, a) (attributes h) ->
     exists x, In x columns /\
       k = col_Field x /\ name a = col_Field x /\ type a = col_Type x /\
       nullable a = String.eqb (col_Null x) "YES" /\
       in_key a = String.eqb (col_Key x) "PRI" /\
       ((numeric a, string_ a, is_blob a) = (Some true, Some false, false) \/
        (numeric a, string_ a, is_blob a) = (Some false, Some true, false) \/
        (numeric a, string_ a, is_blob a) = (Some false, Some false, true)) /\
       (dtype a <> object ->
        is_float (type a) = true \/
        (is_integer (type a) = true /\ nullable a = false))) /\
  (NoDup (map col_Field columns) -> names h = map col_Field columns).
Proof.
  unfold init_from_database. destruct found; cbn [negb]; [| discriminate].
  destruct (mapM (init_attribute database table_name) columns) as [attrs | e] eqn:Hm;
    [| discriminate].
  intros H. inversion H; subst h. clear H.
  apply mapM_Forall2 in Hm.
  assert (Hfrom : forall k a, In (k, a) (attributes (Heading_init attrs)) ->
            k = name a /\ exists x, In x columns
                          /\ init_attribute database table_name x = Ret a).
  { intros k a Hin. unfold Heading_init in Hin. cbn [attributes] in Hin.
    apply od_of_items_In in Hin. apply in_map_iff in Hin.
    destruct Hin as [q [Heq Hq]]. inversion Heq; subst.
    split; [reflexivity |]. exact (Forall2_In_r _ _ _ _ Hm Hq). }
  split; [reflexivity |]. split; [| split; [| split]].
  - intros x Hx. destruct (Forall2_In_l _ _ _ _ Hm Hx) as [a [_ Ha]].
    now apply init_attribute_Ret in Ha.
  - apply expressions_nil. intros [k a] Hin.
    destruct (Hfrom k a Hin) as [_ [x [_ Ha]]].
    apply init_attribute_Ret in Ha. cbn [snd]. tauto.
  - intros k a Hin. destruct (Hfrom k a Hin) as [Hk [x [Hx Ha]]].
    exists x. split; [exact Hx |].
    apply init_attribute_Ret in Ha.
    destruct Ha as [Hs [Hn [Ht [Hnull [Hkey [_ [_ [Hnum [Hstr [Hblob [_ Hd]]]]]]]]]]].
    rewrite Hk, Hn, Ht, Hnull, Hkey, Hnum, Hstr, Hblob.
    repeat split; try reflexivity.
    + destruct (supported_one_class (col_Type x) Hs) as [Hc | [Hc | Hc]];
        inversion Hc as [[H1 H2 H3]]; rewrite ?H1, ?H2, ?H3; auto.
    + intros Hobj. destruct (resolve_dtype_specific _ _ _ Hd Hobj) as [_ Hor].
      exact Hor.
  - intros Hnd.
    assert (Hnames : map name attrs = map col_Field columns).
    { apply (Forall2_map_eq _ _ _ _ _ Hm). intros x a Ha.
      now apply init_attribute_Ret in Ha. }
    assert (Hkeys : map fst (map (fun q => (name q, q)) attrs)
                    = map col_Field columns)
      by (rewrite map_map; exact Hnames).
    unfold Heading_init, names. cbn [attributes].
    rewrite od_of_items_nodup; [exact Hkeys | now rewrite Hkeys].
Qed.

Lemma introspected_heading_is_grounded_witness :
  exists h,
    Scenario.table = Ret h /\
    names h = ["id"; "note"; "image"] /\
    expressions h = [].
Proof.
  eexists. split; [reflexivity |].
  pose proof (introspected_heading_is_grounded "lab" "session" true
                Scenario.columns _ eq_refl) as [_ [_ [Hplain [_ Hnames]]]].
  split; [| exact Hplain].
  apply Hnames. repeat constructor; simpl; intuition discriminate.
Defined.

(** * Further properties of connection.py *)

Section TransactionProperties.

Context {Server Key Restrictions Relation : Type}.
Variable env : Environment Server Key Restrictions Relation.

(** X11: reading [in_transaction] stores what it returns in the flag, so a
    flag left set on a dead connection is cleared by the reading; when the
    probe raises the flag is left as it was; and when the flag is not set
    the connection is not probed. *)
Theorem in_transaction_updates_flag (w w' : World Server Key) (r : Res bool) :
  in_transaction env w = (r, w') ->
  match r with
  | Ret b => _in_transaction w' = b
  | Raise _ => _in_transaction w' = _in_transaction w
  end /\
  (_in_transaction w = false -> r = Ret false /\ trace w' = trace w).
Proof.
  unfold in_transaction, get_in_transaction, set_in_transaction, bind.
  destruct (_in_transaction w) eqn:Hflag.
  - unfold is_connected. rewrite extern_run.
    destruct (fst (conn_ping env (server w))) as [b | e];
      intros H; inversion H; subst; cbn; split; try reflexivity;
      try discriminate. exact Hflag.
  - intros H. inversion H; subst. cbn. repeat split; reflexivity.
Qed.

Lemma in_transaction_refuses (w : World Server Key) (s' : Server) :
  _in_transaction w = true ->
  conn_ping env (server w) = (Ret true, s') ->
  in_transaction env w
  = (Ret true,
     {| _in_transaction := true; server := s';
        trace := (trace w ++ [mkEvent c_ping Returned])%list |}).
Proof.
  intros Hflag Hping.
  unfold in_transaction, get_in_transaction, is_connected, bind.
  rewrite Hflag, extern_run, Hping. reflexivity.
Qed.

Lemma statements_app (t1 t2 : list (Event Key)) :
  statements (t1 ++ t2) = (statements t1 ++ statements t2)%list.
Proof.
  induction t1 as [| [c o] t1 IH]; [reflexivity |].
  destruct c; simpl; try exact IH. now rewrite IH.
Qed.

Lemma start_transaction_refusal (w : World Server Key) (s' : Server) :
  _in_transaction w = true ->
  conn_ping env (server w) = (Ret true, s') ->
  start_transaction env w
  = (Raise nested,
     {| _in_transaction := true; server := s';
        trace := (trace w ++ [mkEvent c_ping Returned])%list |}).
Proof.
  intros Hflag Hping. unfold start_transaction, bind.
  rewrite (in_transaction_refuses w s' Hflag Hping). reflexivity.
Qed.

Lemma cancel_transaction_clears (w w' : World Server Key) :
  cancel_transaction env w = (Ret tt, w') -> _in_transaction w' = false.
Proof.
  unfold cancel_transaction. intros H.
  step H as u w1 Hq H; [| discriminate]. now inversion H.
Qed.

(** X12: inside a transaction (flag set, connection live)
    [start_transaction] raises and executes no statement; and whenever it
    returns, the flag is set and the first statement it executed is START
    TRANSACTION WITH CONSISTENT SNAPSHOT. *)
Theorem start_transaction_opens_or_refuses (w : World Server Key) :
  (forall s', _in_transaction w = true ->
     conn_ping env (server w) = (Ret true, s') ->
     start_transaction env w
     = (Raise nested,
        {| _in_transaction := true; server := s';
           trace := (trace w ++ [mkEvent c_ping Returned])%list |}))
  /\
  (forall w', start_transaction env w = (Ret tt, w') ->
     _in_transaction w' = true /\
     exists tr, trace w' = (trace w ++ tr)%list /\
       exists rest,
         statements tr
         = "START TRANSACTION WITH CONSISTENT SNAPSHOT" :: rest).
Proof.
  split.
  - intros s' Hflag Hping. now apply start_transaction_refusal.
  - intros w' H. unfold start_transaction in H.
    step H as b w1 Hguard H; [| discriminate].
    destruct b; [discriminate |].
    step H as u w2 Hquery H; [| discriminate].
    inversion H; subst. cbn [_in_transaction trace]. split; [reflexivity |].
    apply query_trace in Hquery. destruct Hquery as [o [tl Hq]].
    assert (Hg : exists tg, trace w1 = (trace w ++ tg)%list /\ statements tg = []).
    { unfold in_transaction, get_in_transaction, set_in_transaction, bind in Hguard.
      destruct (_in_transaction w).
      - unfold is_connected in Hguard. rewrite extern_run in Hguard.
        destruct (fst (conn_ping env (server w))); inversion Hguard; subst.
        eexists. split; reflexivity.
      - inversion Hguard; subst. exists []. now rewrite app_nil_r. }
    destruct Hg as [tg [Eg Sg]].
    exists (tg ++ mkEvent (c_execute "START TRANSACTION WITH CONSISTENT SNAPSHOT") o
               :: tl)%list.
    split; [now rewrite Hq, Eg, app_assoc |].
    rewrite statements_app, Sg. eexists. reflexivity.
Qed.

(** X13: when the execution of a statement fails because the server has
    gone away and reconnection is configured, [query] warns, reconnects and
    returns without executing the statement again; so [commit_transaction]
    returns, with the flag cleared, although the only execution of COMMIT
    failed. *)
Theorem statement_lost_on_reconnection (q : string) (e : Exn)
  (w : World Server Key) (s1 s2 : Server) :
  reconnect env = true ->
  exn_class e = OperationalError ->
  contains "MySQL server has gone away" (exn_str e) = true ->
  cur_execute env q (server w) = (Raise e, s1) ->
  client_connect env s1 = (Ret tt, s2) ->
  query env q w
  = (Ret tt,
     {| _in_transaction := _in_transaction w; server := s2;
        trace := (trace w ++ [mkEvent (c_execute q) (Raised e);
                              mkEvent c_warn Returned;
                              mkEvent c_connect Returned])%list |})
  /\
  (q = "COMMIT" ->
   commit_transaction env w
   = (Ret tt,
      {| _in_transaction := false; server := s2;
         trace := (trace w ++ [mkEvent (c_execute "COMMIT") (Raised e);
                               mkEvent c_warn Returned;
                               mkEvent c_connect Returned])%list |})).
Proof.
  intros Hrc Hclass Hgone Hexec Hconn.
  assert (Hq : query env q w
    = (Ret tt,
       {| _in_transaction := _in_transaction w; server := s2;
          trace := (trace w ++ [mkEvent (c_execute q) (Raised e);
                                mkEvent c_warn Returned;
                                mkEvent c_connect Returned])%list |})).
  { unfold query, try_except, try_except_else.
    rewrite extern_run, Hexec. cbn [fst snd].
    unfold is_OperationalError. rewrite Hclass. cbn [ExnClass_eqb].
    rewrite Hgone, Hrc. cbn [andb]. unfold bind, connect.
    rewrite extern_run. cbn [fst snd server _in_transaction trace].
    rewrite extern_run. cbn [server]. rewrite Hconn.
    cbn [fst snd _in_transaction trace outcome_of].
    now rewrite <- !app_assoc. }
  split; [exact Hq |].
  intros ->. unfold commit_transaction, bind. rewrite Hq. reflexivity.
Qed.

(** X14: the scoped transaction. When the body raises after the transaction
    was started, the transaction is rolled back and, the rollback having
    returned, the exception of the body leaves the scope with the flag
    cleared; an exception of the rollback leaves in its place. When the
    body returns, the transaction is committed and what leaves the scope is
    what the commit does. And whenever the scope is left without an
    exception, the flag is cleared. *)
Theorem transaction_scope {A : Type} (body : M (World Server Key) A)
  (w w1 w2 : World Server Key) :
  start_transaction env w = (Ret tt, w1) ->
  (forall e, body w1 = (Raise e, w2) ->
     (forall w3, cancel_transaction env w2 = (Ret tt, w3) ->
        transaction env body w = (Raise e, w3) /\ _in_transaction w3 = false) /\
     (forall e' w3, cancel_transaction env w2 = (Raise e', w3) ->
        transaction env body w = (Raise e', w3)))
  /\
  (forall a, body w1 = (Ret a, w2) ->
     (forall w3, commit_transaction env w2 = (Ret tt, w3) ->
        transaction env body w = (Ret a, w3)) /\
     (forall e' w3, commit_transaction env w2 = (Raise e', w3) ->
        transaction env body w = (Raise e', w3)))
  /\
  (forall a w', transaction env body w = (Ret a, w') ->
     _in_transaction w' = false).
Proof.
  intros Hstart. split; [| split].
  - intros e Hbody. split.
    + intros w3 Hrb. unfold transaction, try_except_else.
      rewrite Hstart, Hbody. cbn [any_exception]. unfold bind. rewrite Hrb.
      split; [reflexivity |].
      exact (cancel_transaction_clears _ _ Hrb).
    + intros e' w3 Hrb. unfold transaction, try_except_else.
      rewrite Hstart, Hbody. cbn [any_exception]. unfold bind. now rewrite Hrb.
  - intros a Hbody. split.
    + intros w3 Hc. unfold transaction, try_except_else.
      rewrite Hstart, Hbody. unfold bind. now rewrite Hc.
    + intros e' w3 Hc. unfold transaction, try_except_else.
      rewrite Hstart, Hbody. unfold bind. now rewrite Hc.
  - intros a w' H. unfold transaction in H.
    step H as x wa Hs H.
    + step H as y wb Hb H.
      * step H as u wc Hc H; [| discriminate]. inversion H; subst.
        unfold commit_transaction in Hc.
        step Hc as u' wd Hq Hc; [| discriminate]. now inversion Hc.
      * step H as u wc Hc H; discriminate.
      * discriminate.
    + step H as u wc Hc H; discriminate.
    + discriminate.
Qed.

(** X15: entering the scoped transaction while a transaction is open (flag
    set, connection live) raises the nested-transaction error, and on its
    way out executes ROLLBACK: the transaction that was open is rolled back
    and the flag cleared; the body is not run. *)
Theorem transaction_entered_twice_rolls_back {A : Type}
  (body : M (World Server Key) A) (w : World Server Key) (s1 s2 : Server) :
  _in_transaction w = true ->
  conn_ping env (server w) = (Ret true, s1) ->
  cur_execute env "ROLLBACK" s1 = (Ret tt, s2) ->
  transaction env body w
  = (Raise nested,
     {| _in_transaction := false; server := s2;
        trace := (trace w ++ [mkEvent c_ping Returned;
                              mkEvent (c_execute "ROLLBACK") Returned])%list |}).
Proof.
  intros Hflag Hping Hrb.
  unfold transaction, try_except_else.
  rewrite (start_transaction_refusal w s1 Hflag Hping).
  cbn [any_exception]. unfold bind, cancel_transaction, bind.
  unfold query, try_except, try_except_else.
  rewrite extern_run. cbn [server]. rewrite Hrb.
  cbn [fst snd outcome_of]. unfold ret, set_in_transaction, raise.
  cbn [server trace _in_transaction]. now rewrite <- app_assoc.
Qed.

End TransactionProperties.

(** * Further properties of autopopulate.py *)

Section PopulateTraces.

Context {Server Key Restrictions Relation : Type}.
Variable env : Environment Server Key Restrictions Relation.
Variables suppress_errors reserve_jobs : bool.

Lemma hook_calls_app (t1 t2 : list (Event Key)) :
  hook_calls (t1 ++ t2) = (hook_calls t1 ++ hook_calls t2)%list.
Proof.
  induction t1 as [| [c o] t1 IH]; [reflexivity |].
  destruct c; simpl; try exact IH. now rewrite IH.
Qed.

Lemma hookless_ret {A : Type} (a : A) :
  hookless (Server := Server) (Key := Key) (ret a).
Proof.
  intros w r w' H. inversion H; subst. exists []. now rewrite app_nil_r.
Qed.

Lemma hookless_raise {A : Type} (e : Exn) :
  hookless (Server := Server) (Key := Key) (A := A) (raise e).
Proof.
  intros w r w' H. inversion H; subst. exists []. now rewrite app_nil_r.
Qed.

Lemma hookless_set (b : bool) :
  hookless (Server := Server) (Key := Key) (set_in_transaction b).
Proof.
  intros w r w' H. inversion H; subst. exists []. cbn. now rewrite app_nil_r.
Qed.

Lemma hookless_get : hookless (Server := Server) (Key := Key) get_in_transaction.
Proof.
  intros w r w' H. inversion H; subst. exists []. now rewrite app_nil_r.
Qed.

Lemma hookless_extern {A : Type} (c : Call Key) (op : Ext Server A) :
  is_hook_call c = false -> hookless (extern c op).
Proof.
  intros Hc w r w' H. rewrite extern_run in H. inversion H; subst.
  eexists. split; [reflexivity |]. destruct c; try reflexivity. discriminate.
Qed.

Lemma hookless_bind {A B : Type} (m : M (World Server Key) A)
  (f : A -> M (World Server Key) B) :
  hookless m -> (forall a, hookless (f a)) -> hookless (bind m f).
Proof.
  intros Hm Hf w r w' H. step H as a w1 Hrun H.
  - destruct (Hm _ _ _ Hrun) as [t1 [E1 F1]].
    destruct (Hf _ _ _ _ H) as [t2 [E2 F2]].
    exists (t1 ++ t2)%list. rewrite E2, E1, app_assoc, hook_calls_app, F1, F2.
    now split.
  - exact (Hm _ _ _ Hrun).
Qed.

Lemma hookless_try_except_else {A B : Type} (m : M (World Server Key) A)
  (handles : Exn -> bool) (handler : Exn -> M (World Server Key) B)
  (continue : A -> M (World Server Key) B) :
  hookless m -> (forall e, hookless (handler e)) ->
  (forall a, hookless (continue a)) ->
  hookless (try_except_else m handles handler continue).
Proof.
  intros Hm Hh Hc w r w' H. step H as a w1 Hrun H.
  - destruct (Hm _ _ _ Hrun) as [t1 [E1 F1]].
    destruct (Hc _ _ _ _ H) as [t2 [E2 F2]].
    exists (t1 ++ t2)%list. rewrite E2, E1, app_assoc, hook_calls_app, F1, F2.
    now split.
  - destruct (Hm _ _ _ Hrun) as [t1 [E1 F1]].
    destruct (Hh _ _ _ _ H) as [t2 [E2 F2]].
    exists (t1 ++ t2)%list. rewrite E2, E1, app_assoc, hook_calls_app, F1, F2.
    now split.
  - exact (Hm _ _ _ Hrun).
Qed.

Lemma hookless_if {A : Type} (b : bool) (m1 m2 : M (World Server Key) A) :
  hookless m1 -> hookless m2 -> hookless (if b then m1 else m2).
Proof. now destruct b. Qed.

Create HintDb hookless.
#[local] Hint Resolve hookless_ret hookless_raise hookless_set hookless_get
  hookless_bind hookless_try_except_else hookless_if : hookless.
#[local] Hint Extern 1 (hookless (extern _ _)) =>
  apply hookless_extern; reflexivity : hookless.

Lemma hookless_query (q : string) : hookless (query env q).
Proof.
  unfold query, try_except, connect.
  apply hookless_try_except_else; auto with hookless.
Qed.

Lemma hookless_in_transaction : hookless (in_transaction env).
Proof. unfold in_transaction, is_connected. auto 8 with hookless. Qed.

#[local] Hint Resolve hookless_query hookless_in_transaction : hookless.

Lemma hookless_start_transaction : hookless (start_transaction env).
Proof. unfold start_transaction. auto 8 with hookless. Qed.

Lemma hookless_cancel_transaction : hookless (cancel_transaction env).
Proof. unfold cancel_transaction. auto with hookless. Qed.

Lemma hookless_commit_transaction : hookless (commit_transaction env).
Proof. unfold commit_transaction. auto with hookless. Qed.

Lemma hookless_when_reserving (m : M (World Server Key) unit) :
  hookless m -> hookless (when_reserving reserve_jobs m).
Proof. unfold when_reserving. auto with hookless. Qed.

#[local] Hint Resolve hookless_start_transaction hookless_cancel_transaction
  hookless_commit_transaction hookless_when_reserving : hookless.

Lemma hookless_append_error (el : ErrorList Key) (k : Key) (e : Exn) :
  hookless (Server := Server) (append_error el k e).
Proof. unfold append_error. destruct el; auto with hookless. Qed.

#[local] Hint Resolve hookless_append_error : hookless.

Lemma hookless_on_failure (key : Key) (el : ErrorList Key) (error : Exn) :
  hookless (on_failure env suppress_errors reserve_jobs key el error).
Proof. unfold on_failure, try_except. auto 10 with hookless. Qed.

Lemma hookless_on_success (key : Key) (el : ErrorList Key) :
  hookless (on_success env reserve_jobs key el).
Proof. unfold on_success. auto 10 with hookless. Qed.

(** The [try] statement calls the hook once, and first. *)
Lemma make_calls_hook_once (key : Key) (el : ErrorList Key)
  (w w' : World Server Key) (r : Res (ErrorList Key)) :
  make env suppress_errors reserve_jobs key el w = (r, w') ->
  exists tr, trace w' = (trace w ++ tr)%list /\ hook_calls tr = [key].
Proof.
  unfold make. intros H. step H as x w1 Hhook H.
  - rewrite extern_run in Hhook. inversion Hhook as [[Hr Hw]].
    destruct (hookless_on_success key el _ _ _ H) as [t [E F]].
    exists (mkEvent (c_make_tuples key) (outcome_of (fst (_make_tuples env key (server w))))
            :: t). split.
    + rewrite E, <- Hw. cbn [trace]. now rewrite <- app_assoc.
    + cbn [hook_calls]. now rewrite F.
  - rewrite extern_run in Hhook. inversion Hhook as [[Hr Hw]].
    destruct (hookless_on_failure key el x _ _ _ H) as [t [E F]].
    exists (mkEvent (c_make_tuples key) (outcome_of (fst (_make_tuples env key (server w))))
            :: t). split.
    + rewrite E, <- Hw. cbn [trace]. now rewrite <- app_assoc.
    + cbn [hook_calls]. now rewrite F.
  - rewrite extern_run in Hhook. inversion Hhook as [[Hr Hw]].
    eexists. split; [reflexivity | reflexivity].
Qed.

(** What a step that never calls the hook added to the trace. *)
Ltac hookless_fact H :=
  let t := fresh "t" in
  let E := fresh "E" in
  let F := fresh "F" in
  let Hq := fresh "Hq" in
  match type of H with
  | ?m _ = (_, _) =>
      assert (Hq : hookless m) by (auto 10 with hookless);
      destruct (Hq _ _ _ H) as [t [E F]]; clear Hq
  end.

(** Put the pieces of a trace together, and the hook calls in them. *)
Ltac chain_calls :=
  split;
  [ repeat match goal with
           | E : trace _ = _ |- _ => rewrite E; clear E
           end;
    cbn [trace]; repeat rewrite <- app_assoc; reflexivity
  | repeat rewrite hook_calls_app;
    repeat match goal with
           | F : hook_calls _ = _ |- _ => rewrite F; clear F
           end;
    cbn [app]; repeat rewrite app_nil_r ].

(** One key: the hook is called at most once, and with that key. *)
Lemma populate_key_calls (key : Key) (el : ErrorList Key)
  (w w' : World Server Key) (r : Res (ErrorList Key)) :
  populate_key env suppress_errors reserve_jobs key el w = (r, w') ->
  exists tr, trace w' = (trace w ++ tr)%list /\
    (hook_calls tr = [] \/ hook_calls tr = [key]).
Proof.
  unfold populate_key. intros H.
  step H as go w1 Hgo H; hookless_fact Hgo.
  - destruct go.
    + step H as u w2 Hstart H; hookless_fact Hstart.
      * step H as present w3 Hin H; hookless_fact Hin.
        -- destruct present.
           ++ hookless_fact H.
              exists (t ++ t0 ++ t1 ++ t2)%list. chain_calls. now left.
           ++ apply make_calls_hook_once in H. destruct H as [t2 [E2 F2]].
              exists (t ++ t0 ++ t1 ++ t2)%list. chain_calls. now right.
        -- exists (t ++ t0 ++ t1)%list. chain_calls. now left.
      * exists (t ++ t0)%list. chain_calls. now left.
    + inversion H; subst. exists t. chain_calls. now left.
  - exists t. chain_calls. now left.
Qed.

Lemma subseq_nil_l {A : Type} (l : list A) : subseq [] l.
Proof. induction l; constructor; assumption. Qed.

(** X16: in every run of the loop of [populate], however it ends, the keys
    handed to the computation hook are keys of the list, in the order of
    the list, each position of the list being used at most once. *)
Theorem hook_is_called_in_key_order (keys : list Key) :
  forall (el : ErrorList Key) (w w' : World Server Key) (r : Res (ErrorList Key)),
    populate_loop env suppress_errors reserve_jobs keys el w = (r, w') ->
    exists tr, trace w' = (trace w ++ tr)%list /\ subseq (hook_calls tr) keys.
Proof.
  induction keys as [| key rest IH]; intros el w w' r H; cbn [populate_loop] in H.
  - inversion H; subst. exists []. split; [now rewrite app_nil_r | constructor].
  - step H as el1 w1 Hkey H.
    + apply populate_key_calls in Hkey. destruct Hkey as [t1 [E1 F1]].
      apply IH in H. destruct H as [t2 [E2 S2]].
      exists (t1 ++ t2)%list. split; [now rewrite E2, E1, app_assoc |].
      rewrite hook_calls_app. destruct F1 as [-> | ->]; cbn [app].
      * now apply subseq_skip.
      * now apply subseq_take.
    + apply populate_key_calls in Hkey. destruct Hkey as [t1 [E1 F1]].
      exists t1. split; [exact E1 |].
      destruct F1 as [-> | ->]; [apply subseq_nil_l |].
      apply subseq_take. apply subseq_nil_l.
Qed.

(** One key, without reservation and with a target that does not have the
    key: when the body returns, the hook was called once. *)
Lemma populate_key_computes (key : Key) (el el' : ErrorList Key)
  (w w' : World Server Key) :
  reserve_jobs = false ->
  (forall k s, fst (target_contains env k s) = Ret false) ->
  populate_key env suppress_errors reserve_jobs key el w = (Ret el', w') ->
  exists tr, trace w' = (trace w ++ tr)%list /\ hook_calls tr = [key].
Proof.
  intros Hres Hnone. unfold populate_key. intros H.
  step H as go w1 Hgo H; [| discriminate].
  rewrite Hres in Hgo. cbn [negb] in Hgo. inversion Hgo; subst go w1.
  step H as u w2 Hstart H; [| discriminate]. hookless_fact Hstart.
  step H as present w3 Hin H; [| discriminate]. hookless_fact Hin.
  rewrite extern_run in Hin. inversion Hin as [[Hr Hw]].
  rewrite Hnone in Hr. inversion Hr; subst present.
  apply make_calls_hook_once in H. destruct H as [t1 [E1 F1]].
  exists (t ++ t0 ++ t1)%list. split.
  - rewrite E1, E0, E. now rewrite <- !app_assoc.
  - rewrite !hook_calls_app, F, F0, F1. reflexivity.
Qed.

Lemma populate_loop_computes (keys : list Key) :
  reserve_jobs = false ->
  (forall k s, fst (target_contains env k s) = Ret false) ->
  forall (el el' : ErrorList Key) (w w' : World Server Key),
    populate_loop env suppress_errors reserve_jobs keys el w = (Ret el', w') ->
    exists tr, trace w' = (trace w ++ tr)%list /\ hook_calls tr = keys.
Proof.
  intros Hres Hnone.
  induction keys as [| key rest IH]; intros el el' w w' H; cbn [populate_loop] in H.
  - inversion H; subst. exists []. split; [now rewrite app_nil_r | reflexivity].
  - step H as el1 w1 Hkey H; [| discriminate].
    apply (populate_key_computes key el el1 w w1 Hres Hnone) in Hkey.
    destruct Hkey as [t1 [E1 F1]].
    apply IH in H. destruct H as [t2 [E2 F2]].
    exists (t1 ++ t2)%list. split; [now rewrite E2, E1, app_assoc |].
    now rewrite hook_calls_app, F1, F2.
Qed.

(** X17: without reservation, and with a target that has none of the keys
    when asked, a run of the loop that returns has handed every key of the
    list to the computation hook, once each and in the order of the list,
    the failed ones included. *)
Theorem every_key_is_computed (keys : list Key) :
  reserve_jobs = false ->
  (forall k s, fst (target_contains env k s) = Ret false) ->
  forall (el el' : ErrorList Key) (w w' : World Server Key),
    populate_loop env suppress_errors reserve_jobs keys el w = (Ret el', w') ->
    exists tr, trace w' = (trace w ++ tr)%list /\ hook_calls tr = keys.
Proof. exact (populate_loop_computes keys). Qed.

(** X18: with reservation, when the job store grants no key, the loop
    returns the error list it started with, the only calls it makes are
    the requests for reservation, one per key and in order, and the flag is
    left as it was: no transaction is started and the hook is not called. *)
Theorem nothing_runs_without_reservation (keys : list Key) :
  reserve_jobs = true ->
  (forall k s, fst (jobs_reserve env k s) = Ret false) ->
  forall (el : ErrorList Key) (w : World Server Key),
    exists w' tr,
      populate_loop env suppress_errors reserve_jobs keys el w = (Ret el, w') /\
      _in_transaction w' = _in_transaction w /\
      trace w' = (trace w ++ tr)%list /\
      tr = map (fun k => mkEvent (c_reserve k) Returned) keys.
Proof.
  intros Hres Hdeny.
  induction keys as [| key rest IH]; intros el w.
  - exists w, []. cbn. rewrite app_nil_r. repeat split; reflexivity.
  - set (w1 := {| _in_transaction := _in_transaction w;
                  server := snd (jobs_reserve env key (server w));
                  trace := (trace w ++ [mkEvent (c_reserve key) Returned])%list |}).
    assert (Hkey : populate_key env suppress_errors reserve_jobs key el w
                   = (Ret el, w1)).
    { unfold populate_key. rewrite Hres. cbn [negb]. unfold bind.
      rewrite extern_run, Hdeny. reflexivity. }
    destruct (IH el w1) as [w' [tr [Hloop [Hflag [Htr Heq]]]]].
    exists w', (mkEvent (c_reserve key) Returned :: tr).
    split; [| split; [| split]].
    + cbn [populate_loop]. unfold bind. rewrite Hkey. exact Hloop.
    + rewrite Hflag. reflexivity.
    + rewrite Htr. unfold w1. cbn [trace]. now rewrite <- app_assoc.
    + cbn [map]. now rewrite Heq.
Qed.

(** X19: [populate] with an order that is not one of original, reverse and
    random always raises, and contacts no collaborator beyond the liveness
    probe of its first test: the key source is not read and no key is
    processed. *)
Theorem populate_rejects_unknown_order (restrictions : Restrictions)
  (order : string) (w w' : World Server Key) (r : Res (ErrorList Key)) :
  mem order valid_order = false ->
  populate env suppress_errors reserve_jobs restrictions order w = (r, w') ->
  (exists e, r = Raise e) /\
  exists tr, trace w' = (trace w ++ tr)%list /\
    forall ev, In ev tr -> ev_call ev = c_ping.
Proof.
  intros Horder H. unfold populate in H. rewrite Horder in H. cbn [negb] in H.
  step H as b w1 Hguard H.
  - assert (Hr : exists e, r = Raise e)
      by (destruct b; inversion H; eexists; reflexivity).
    assert (Hw : w' = w1) by (destruct b; now inversion H).
    subst w'. split; [exact Hr |].
    unfold in_transaction, get_in_transaction, set_in_transaction, bind in Hguard.
    destruct (_in_transaction w).
    + unfold is_connected in Hguard. rewrite extern_run in Hguard.
      destruct (fst (conn_ping env (server w))); inversion Hguard; subst.
      eexists. split; [reflexivity |]. intros ev [<- | []]. reflexivity.
    + inversion Hguard; subst. exists []. split; [now rewrite app_nil_r |].
      intros ev [].
  - split; [eexists; exact H |].
    unfold in_transaction, get_in_transaction, set_in_transaction, bind in Hguard.
    destruct (_in_transaction w).
    + unfold is_connected in Hguard. rewrite extern_run in Hguard.
      destruct (fst (conn_ping env (server w))); inversion Hguard; subst.
      eexists. split; [reflexivity |]. intros ev [<- | []]. reflexivity.
    + inversion Hguard.
Qed.

Lemma start_transaction_sets_flag (w w' : World Server Key) :
  start_transaction env w = (Ret tt, w') -> _in_transaction w' = true.
Proof.
  unfold start_transaction. intros H.
  step H as b w1 Hguard H; [| discriminate].
  destruct b; [discriminate |].
  step H as u w2 Hq H; [| discriminate]. now inversion H.
Qed.

Lemma cancel_transaction_raise_keeps_flag (w w' : World Server Key) (e : Exn) :
  cancel_transaction env w = (Raise e, w') ->
  _in_transaction w' = _in_transaction w.
Proof.
  unfold cancel_transaction. intros H.
  step H as u w1 Hq H; [discriminate |]. eapply query_flag; eauto.
Qed.

(** X20: errors being suppressed and no job reserved, when the hook fails
    on a key and the rollback raises the [OperationalError] that the loop
    swallows, the flag is still set; if the connection then answers the
    probe, the next key fails to start its transaction: the run raises the
    nested-transaction error, the pair recorded for the failed key is not
    returned and the remaining keys are not processed. *)
Theorem swallowed_rollback_failure_stops_the_run (key next : Key)
  (rest : list Key) (l : list (Key * Exn)) (error e' : Exn)
  (w wb wc w1 w2 : World Server Key) (s3 : Server) :
  reserve_jobs = false ->
  suppress_errors = true ->
  start_transaction env w = (Ret tt, wb) ->
  extern (c_contains key) (target_contains env key) wb = (Ret false, wc) ->
  extern (c_make_tuples key) (_make_tuples env key) wc = (Raise error, w1) ->
  cancel_transaction env w1 = (Raise e', w2) ->
  exn_class e' = OperationalError ->
  conn_ping env (server w2) = (Ret true, s3) ->
  populate_loop env suppress_errors reserve_jobs (key :: next :: rest) (Some l) w
  = (Raise nested,
     {| _in_transaction := true; server := s3;
        trace := (trace w2 ++ [mkEvent c_ping Returned])%list |}).
Proof.
  intros Hres Hsup Hstart Hin Hhook Hrb Hclass Hping.
  assert (Hflag : _in_transaction w2 = true).
  { rewrite (cancel_transaction_raise_keeps_flag _ _ _ Hrb).
    rewrite (extern_flag _ _ _ _ _ Hhook), (extern_flag _ _ _ _ _ Hin).
    exact (start_transaction_sets_flag _ _ Hstart). }
  assert (Hkey : populate_key env suppress_errors reserve_jobs key (Some l) w
                 = (Ret (Some (l ++ [(key, error)])%list), w2)).
  { unfold populate_key, bind at 1. rewrite Hres. cbn [negb]. unfold ret at 1.
    unfold bind at 1. rewrite Hstart.
    unfold bind at 1. rewrite Hin.
    unfold make, try_except_else. rewrite Hhook. cbn [is_Exception].
    unfold on_failure, bind at 1.
    unfold try_except, try_except_else. rewrite Hrb.
    unfold is_OperationalError. rewrite Hclass. cbn [ExnClass_eqb].
    unfold ret at 1. unfold bind at 1. unfold when_reserving, ret at 1.
    rewrite Hsup. reflexivity. }
  assert (Hnext : populate_key env suppress_errors reserve_jobs next
                    (Some (l ++ [(key, error)])%list) w2
                  = (Raise nested,
                     {| _in_transaction := true; server := s3;
                        trace := (trace w2 ++ [mkEvent c_ping Returned])%list |})).
  { unfold populate_key, bind at 1. rewrite Hres. cbn [negb]. unfold ret at 1.
    unfold bind at 1.
    now rewrite (start_transaction_refusal env w2 s3 Hflag Hping). }
  cbn [populate_loop]. unfold bind at 1. rewrite Hkey.
  unfold bind at 1. now rewrite Hnext.
Qed.

(** X21: without reservation, when the target has none of the keys and
    the key source yields [keys], a call of [populate] that returns has
    handed the keys to the computation hook in the order in which they were
    fetched when the order is original, and in the opposite order when it
    is reverse. *)
Theorem populate_visits_keys_in_order (restrictions : Restrictions)
  (order : string) (keys : list Key) (w w' : World Server Key)
  (result : ErrorList Key) :
  reserve_jobs = false ->
  (forall k s, fst (target_contains env k s) = Ret false) ->
  (forall todo s, fst (rel_fetch_keys env todo s) = Ret keys) ->
  populate env suppress_errors reserve_jobs restrictions order w
  = (Ret result, w') ->
  exists tr, trace w' = (trace w ++ tr)%list /\
    (order = "original" -> hook_calls tr = keys) /\
    (order = "reverse" -> hook_calls tr = rev keys).
Proof.
  intros Hres Hnone Hkeys H. unfold populate in H.
  step H as b w1 Hguard H; [| discriminate]. hookless_fact Hguard.
  destruct b; [discriminate |].
  destruct (negb (mem order valid_order)); [discriminate |].
  step H as todo w2 Hsource H; [| discriminate]. hookless_fact Hsource.
  destruct (negb (is_RelationalOperand env todo)); [discriminate |].
  step H as todo' w3 Hrestrict H; [| discriminate]. hookless_fact Hrestrict.
  step H as u w4 Hjobs H; [| discriminate]. hookless_fact Hjobs.
  step H as keys0 w5 Hfetch H; [| discriminate]. hookless_fact Hfetch.
  rewrite extern_run in Hfetch. inversion Hfetch as [[Hr Hw]].
  rewrite Hkeys in Hr. inversion Hr; subst keys0. clear Hr Hw Hfetch.
  step H as keys' w6 Horder H; [| discriminate]. hookless_fact Horder.
  apply (populate_loop_computes keys' Hres Hnone) in H.
  destruct H as [tl [El Fl]].
  exists (t ++ t0 ++ t1 ++ t2 ++ t3 ++ t4 ++ tl)%list.
  assert (Hcalls : hook_calls (t ++ t0 ++ t1 ++ t2 ++ t3 ++ t4 ++ tl) = keys').
  { repeat rewrite hook_calls_app. rewrite F, F0, F1, F2, F3, F4, Fl. reflexivity. }
  split; [| split].
  - rewrite El, E4, E3, E2, E1, E0, E. repeat rewrite <- app_assoc. reflexivity.
  - intros ->. cbn in Horder. injection Horder as Hk _.
    now rewrite Hcalls, <- Hk.
  - intros ->. cbn in Horder. injection Horder as Hk _.
    now rewrite Hcalls, <- Hk.
Qed.

End PopulateTraces.
Lemma in_transaction_updates_flag_witness :
  match fst (in_transaction (Sample.env false Sample.ok []) Sample.busy) with
  | Ret b =>
      _in_transaction
        (snd (in_transaction (Sample.env false Sample.ok []) Sample.busy)) = b
  | Raise _ =>
      _in_transaction
        (snd (in_transaction (Sample.env false Sample.ok []) Sample.busy))
      = _in_transaction Sample.busy
  end /\
  (_in_transaction Sample.busy = false ->
   fst (in_transaction (Sample.env false Sample.ok []) Sample.busy) = Ret false /\
   trace (snd (in_transaction (Sample.env false Sample.ok []) Sample.busy))
   = trace Sample.busy).
Proof.
  apply (in_transaction_updates_flag (Sample.env false Sample.ok []) Sample.busy).
  reflexivity.
Defined.

Lemma start_transaction_opens_or_refuses_witness :
  start_transaction (Sample.env true Sample.ok []) Sample.busy
  = (Raise nested,
     {| _in_transaction := true; server := tt;
        trace := [mkEvent c_ping Returned] |}).
Proof.
  apply (proj1 (start_transaction_opens_or_refuses
                  (Sample.env true Sample.ok []) Sample.busy) tt);
    reflexivity.
Defined.

Lemma statement_lost_on_reconnection_witness :
  commit_transaction
    (Scenario.env true true (Sample.failing "COMMIT" Scenario.went_away)
       (Scenario.always true) (Scenario.always false) [])
    Sample.busy
  = (Ret tt,
     {| _in_transaction := false; server := tt;
        trace := [mkEvent (c_execute "COMMIT") (Raised Scenario.went_away);
                  mkEvent c_warn Returned;
                  mkEvent c_connect Returned] |}).
Proof.
  apply (proj2 (statement_lost_on_reconnection
                  (Scenario.env true true
                     (Sample.failing "COMMIT" Scenario.went_away)
                     (Scenario.always true) (Scenario.always false) [])
                  "COMMIT" Scenario.went_away Sample.busy tt tt
                  eq_refl eq_refl eq_refl eq_refl eq_refl));
    reflexivity.
Defined.

(** The body of the scope fails: the transaction is rolled back and the
    failure leaves the scope. *)
Lemma transaction_scope_witness :
  transaction (Sample.env true Sample.ok [])
    (raise (A := unit) Sample.boom) Sample.idle
  = (Raise Sample.boom,
     {| _in_transaction := false; server := tt;
        trace :=
          [mkEvent (c_execute "START TRANSACTION WITH CONSISTENT SNAPSHOT") Returned;
           mkEvent (c_execute "ROLLBACK") Returned] |}).
Proof.
  refine (proj1 (proj1 (proj1
    (transaction_scope (Sample.env true Sample.ok [])
       (raise (A := unit) Sample.boom) Sample.idle _ _ eq_refl)
    Sample.boom eq_refl) _ eq_refl)).
Defined.

Lemma transaction_entered_twice_rolls_back_witness :
  transaction (Sample.env true Sample.ok []) (ret 0) Sample.busy
  = (Raise nested,
     {| _in_transaction := false; server := tt;
        trace := [mkEvent c_ping Returned;
                  mkEvent (c_execute "ROLLBACK") Returned] |}).
Proof.
  apply (transaction_entered_twice_rolls_back (Sample.env true Sample.ok [])
           (ret 0) Sample.busy tt tt);
    reflexivity.
Defined.

Lemma hook_is_called_in_key_order_witness :
  exists tr,
    trace (snd (populate_loop
                  (Scenario.env false true Sample.ok
                     (fun k => Nat.eqb k 2) (Scenario.always false) [])
                  true true [1; 2; 3] (Some []) Sample.idle))
    = (trace Sample.idle ++ tr)%list /\
    subseq (hook_calls tr) [1; 2; 3].
Proof.
  apply (hook_is_called_in_key_order
           (Scenario.env false true Sample.ok
              (fun k => Nat.eqb k 2) (Scenario.always false) [])
           true true [1; 2; 3] (Some []) Sample.idle _
           (fst (populate_loop
                   (Scenario.env false true Sample.ok
                      (fun k => Nat.eqb k 2) (Scenario.always false) [])
                   true true [1; 2; 3] (Some []) Sample.idle))).
  reflexivity.
Defined.

Lemma every_key_is_computed_witness :
  exists tr,
    trace (snd (populate_loop (Sample.env true Sample.ok []) true false
                  [1; 2] (Some []) Sample.idle))
    = (trace Sample.idle ++ tr)%list /\
    hook_calls tr = [1; 2].
Proof.
  apply (every_key_is_computed (Sample.env true Sample.ok []) true false [1; 2]
           eq_refl (fun _ _ => eq_refl) (Some []) (Some [(1, Sample.boom)])
           Sample.idle).
  reflexivity.
Defined.

Lemma nothing_runs_without_reservation_witness :
  exists w' tr,
    populate_loop
      (Scenario.env false true Sample.ok (Scenario.always false)
         (Scenario.always false) [])
      false true [1; 2] None Sample.idle
    = (Ret None, w') /\
    _in_transaction w' = _in_transaction Sample.idle /\
    trace w' = (trace Sample.idle ++ tr)%list /\
    tr = map (fun k => mkEvent (c_reserve k) Returned) [1; 2].
Proof.
  exact (nothing_runs_without_reservation
           (Scenario.env false true Sample.ok (Scenario.always false)
              (Scenario.always false) [])
           false true [1; 2] eq_refl (fun _ _ => eq_refl) None Sample.idle).
Defined.

Lemma populate_rejects_unknown_order_witness :
  (exists e,
     fst (populate (Sample.env true Sample.ok [1; 2]) false false tt "sorted"
            Sample.idle) = Raise e) /\
  exists tr,
    trace (snd (populate (Sample.env true Sample.ok [1; 2]) false false tt
                  "sorted" Sample.idle))
    = (trace Sample.idle ++ tr)%list /\
    forall ev, In ev tr -> ev_call ev = c_ping.
Proof.
  apply (populate_rejects_unknown_order (Sample.env true Sample.ok [1; 2])
           false false tt "sorted" Sample.idle); reflexivity.
Defined.

(** ROLLBACK fails on a connection that then answers the probe again. *)
Lemma swallowed_rollback_failure_stops_the_run_witness :
  populate_loop (Sample.env true (Sample.failing "ROLLBACK" Sample.gone) [])
    true false [1; 2] (Some []) Sample.idle
  = (Raise nested,
     {| _in_transaction := true; server := tt;
        trace :=
          [mkEvent (c_execute "START TRANSACTION WITH CONSISTENT SNAPSHOT") Returned;
           mkEvent (c_contains 1) Returned;
           mkEvent (c_make_tuples 1) (Raised Sample.boom);
           mkEvent (c_execute "ROLLBACK") (Raised Sample.gone);
           mkEvent c_ping Returned] |}).
Proof.
  refine (swallowed_rollback_failure_stops_the_run
            (Sample.env true (Sample.failing "ROLLBACK" Sample.gone) [])
            true false 1 2 [] [] Sample.boom Sample.gone Sample.idle
            _ _ _ _ tt eq_refl eq_refl eq_refl eq_refl eq_refl eq_refl eq_refl
            eq_refl).
Defined.

Lemma populate_visits_keys_in_order_witness :
  exists tr,
    trace (snd (populate (Sample.env true Sample.ok [1; 2; 3]) true false tt
                  "reverse" Sample.idle))
    = (trace Sample.idle ++ tr)%list /\
    ("reverse" = "original" -> hook_calls tr = [1; 2; 3]) /\
    ("reverse" = "reverse" -> hook_calls tr = rev [1; 2; 3]).
Proof.
  apply (populate_visits_keys_in_order (Sample.env true Sample.ok [1; 2; 3])
           true false tt "reverse" [1; 2; 3] Sample.idle
           (snd (populate (Sample.env true Sample.ok [1; 2; 3]) true false tt
                   "reverse" Sample.idle))
           (Some [(1, Sample.boom)]) eq_refl (fun _ _ => eq_refl)
           (fun _ _ => eq_refl)).
  vm_compute. reflexivity.
Defined.

(** * Further properties of the attribute clause and of Heading *)




Lemma od_fold_keys (k : string) (items acc : list (string * Attribute)) :
  In k (map fst (fold_left (fun d kv => od_set (fst kv) (snd kv) d) items acc))
  <-> In k (map fst acc) \/ In k (map fst items).
Proof.
  revert acc. induction items as [| [k' v'] items IH]; intros acc; simpl.
  - tauto.
  - rewrite IH, od_set_keys_In. intuition.
Qed.

(** X23: building a heading from a list of attributes in which a name
    occurs several times keeps one entry for the name, with the attribute
    that comes last in the list; the names of the heading are the names
    that occur in the list, and there are no more of them than
    attributes. *)
Theorem Heading_init_keeps_last (before after : list Attribute) (a : Attribute) :
  (forall q, In q after -> name q <> name a) ->
  od_get (name a) (attributes (Heading_init (before ++ a :: after))) = Some a /\
  count_occ string_dec (names (Heading_init (before ++ a :: after))) (name a) = 1 /\
  (forall n, In n (names (Heading_init (before ++ a :: after))) <->
             exists q, In q (before ++ a :: after)%list /\ name q = n).
Proof.
  intros Hlast.
  assert (Hkeys : forall arg n, In n (names (Heading_init arg)) <->
                                exists q, In q arg /\ name q = n).
  { intros arg n. unfold Heading_init, names, od_of_items. cbn [attributes].
    rewrite od_fold_keys, map_map. cbn [map fst]. rewrite in_map_iff.
    split.
    - intros [[] | [q [Hq Hin]]]. now exists q.
    - intros [q [Hin Hq]]. right. now exists q. }
  split; [| split].
  - unfold Heading_init. cbn [attributes]. rewrite map_app. cbn [map].
    apply od_get_of_items_last. rewrite map_map. cbn [fst].
    intros H. apply in_map_iff in H. destruct H as [q [Hq Hin]].
    now apply (Hlast q Hin).
  - apply NoDup_count_occ'.
    + exact (proj1 (Heading_init_wf (before ++ a :: after))).
    + apply Hkeys. exists a. split; [| reflexivity].
      apply in_or_app. right. now left.
  - apply Hkeys.
Qed.

Lemma Heading_init_keeps_last_witness :
  od_get "x"
    (attributes
       (Heading_init
          ([Sample.attr "x" "int(11)" true "first" int32;
            Sample.attr "a" "float" false "a" float32]
           ++ Sample.attr "x" "bigint(20)" false "second" int64 :: [])))
  = Some (Sample.attr "x" "bigint(20)" false "second" int64) /\
  names
    (Heading_init
       ([Sample.attr "x" "int(11)" true "first" int32;
         Sample.attr "a" "float" false "a" float32]
        ++ Sample.attr "x" "bigint(20)" false "second" int64 :: []))
  = ["x"; "a"].
Proof.
  split; [| reflexivity].
  apply (Heading_init_keeps_last
           [Sample.attr "x" "int(11)" true "first" int32;
            Sample.attr "a" "float" false "a" float32]
           [] (Sample.attr "x" "bigint(20)" false "second" int64)).
  intros q [].
Defined.
